(** * The directory cache (index) entry model of [cache.h] and the
      untracked-file listing of [wt-status.c]

    A shallow embedding of the index-entry macros and inline functions of
    [cache.h] (mode canonicalisation, flag packing, on-disk entry size,
    object-id comparison and copy, array growth) and of the colour-slot
    parser, [quote_path] and the printing callbacks of [wt-status.c],
    followed by the properties proved about them.

    C integers are modelled as [Z]; the narrowing done by the C code
    (a 16-bit [ce_flags], a 32-bit [ce_mode]) is written out where it
    happens.  Byte buffers are [list byte]. *)

From Stdlib Require Import Strings.Byte Strings.String.
From Stdlib Require Import ZArith List Lia Bool Sorted.
From Equations Require Import Equations.
Import ListNotations.

Local Open Scope Z_scope.

(* ===================================================================== *)
(** * Part I: definitions                                                 *)
(* ===================================================================== *)

(** ** Octal constants

    The C source writes modes in octal.  [octal 160000] reads the decimal
    digits of its argument as octal digits, so that the constants below can
    be compared with the source character by character. *)

Fixpoint octal_digits (fuel : nat) (d : Z) : Z :=
  match fuel with
  | O => 0
  | S f => if d =? 0 then 0 else d mod 10 + 8 * octal_digits f (d / 10)
  end.

Definition octal (d : Z) : Z := octal_digits 16 d.

(** ** Host byte order: [htons], [htonl], [ntohs], [ntohl]

    The index keeps its fields in network (big-endian) order.  On a
    big-endian host the conversions are the identity on the 16 or 32 bits
    they carry; on a little-endian host they reverse the bytes. *)

Inductive byte_order : Set := LittleEndian | BigEndian.

Definition bswap16 (x : Z) : Z :=
  (x mod 256) * 256 + (x / 256) mod 256.

Definition bswap32 (x : Z) : Z :=
  (x mod 256) * 16777216 + ((x / 256) mod 256) * 65536
  + ((x / 65536) mod 256) * 256 + (x / 16777216) mod 256.

Definition uint16 (x : Z) : Z := x mod 65536.
Definition uint32 (x : Z) : Z := x mod 4294967296.

(** ** [<sys/stat.h>] file-type bits *)

(** Modelled from the spec: the [S_IFxxx] constants and the [S_ISxxx] tests
    come from the platform header, which is not part of the repository.
    cache.h relies on "the same bit representation in the UNIX world" and
    records that 0160000 is [S_IFDIR + S_IFLNK]; the values are those. *)
Definition S_IFMT  : Z := Eval vm_compute in octal 170000.
Definition S_IFDIR : Z := Eval vm_compute in octal 40000.
Definition S_IFREG : Z := Eval vm_compute in octal 100000.
Definition S_IFLNK : Z := Eval vm_compute in octal 120000.

Definition S_ISREG (m : Z) : bool := Z.land m S_IFMT =? S_IFREG.
Definition S_ISDIR (m : Z) : bool := Z.land m S_IFMT =? S_IFDIR.
Definition S_ISLNK (m : Z) : bool := Z.land m S_IFMT =? S_IFLNK.

(** ** cache.h: gitlinks *)

Definition S_IFINVALID : Z := Eval vm_compute in octal 30000.
Definition S_IFGITLINK : Z := Eval vm_compute in octal 160000.
Definition S_ISGITLINK (m : Z) : bool := Z.land m S_IFMT =? S_IFGITLINK.

(** ** cache.h: the cache entry *)

Record cache_time : Set := mk_cache_time { sec : Z; nsec : Z }.

Record cache_entry : Set := mk_cache_entry {
  ce_ctime : cache_time;
  ce_mtime : cache_time;
  ce_dev : Z;
  ce_ino : Z;
  ce_mode : Z;            (* unsigned int, network order *)
  ce_uid : Z;
  ce_gid : Z;
  ce_size : Z;
  sha1 : list byte;       (* unsigned char sha1[20] *)
  ce_flags : Z;           (* unsigned short, network order *)
  name : list byte        (* char name[FLEX_ARRAY], without the final NUL *)
}.

(** The fixed part of [struct cache_entry], field by field with the size of
    each field in bytes; every field is naturally aligned, so no padding
    precedes [name]. *)
Definition cache_entry_fields : list (string * Z) :=
  [ ("ce_ctime", 8); ("ce_mtime", 8); ("ce_dev", 4); ("ce_ino", 4);
    ("ce_mode", 4); ("ce_uid", 4); ("ce_gid", 4); ("ce_size", 4);
    ("sha1", 20); ("ce_flags", 2) ]%string.

(** [offsetof(struct cache_entry, name)] *)
Definition offsetof_name : Z :=
  fold_left (fun off f => off + snd f) cache_entry_fields 0.

Definition CE_NAMEMASK  : Z := 0x0fff.
Definition CE_STAGEMASK : Z := 0x3000.
Definition CE_UPDATE    : Z := 0x4000.
Definition CE_VALID     : Z := 0x8000.
Definition CE_STAGESHIFT : Z := 12.

Definition ce_permissions (mode : Z) : Z :=
  if negb (Z.land mode (octal 100) =? 0) then octal 755 else octal 644.

Definition canon_mode (mode : Z) : Z :=
  if S_ISREG mode then Z.lor S_IFREG (ce_permissions mode)
  else if S_ISLNK mode then S_IFLNK
  else if S_ISDIR mode then S_IFDIR
  else S_IFGITLINK.

Definition cache_entry_size (len : Z) : Z :=
  Z.land (offsetof_name + len + 8) (Z.lnot 7).

Inductive enum_object_type : Set :=
| OBJ_BAD | OBJ_NONE | OBJ_COMMIT | OBJ_TREE | OBJ_BLOB | OBJ_TAG
| OBJ_OFS_DELTA | OBJ_REF_DELTA | OBJ_MAX.

Definition object_type (mode : Z) : enum_object_type :=
  if S_ISDIR mode then OBJ_TREE
  else if S_ISGITLINK mode then OBJ_COMMIT
  else OBJ_BLOB.

(** ** libc: [memcmp]

    Bytes are compared as [unsigned char]; the result is the difference of
    the first pair of bytes that differ, 0 when the first [n] bytes agree.
    A buffer shorter than [n] reads as NUL past its end (the callers below
    only pass buffers that hold [n] bytes). *)

Definition byte_val (b : byte) : Z := Z.of_N (Byte.to_N b).

Fixpoint memcmp (s1 s2 : list byte) (n : nat) : Z :=
  match n with
  | O => 0
  | S n' =>
      let a := hd x00 s1 in
      let b := hd x00 s2 in
      if byte_val a =? byte_val b
      then memcmp (tl s1) (tl s2) n'
      else byte_val a - byte_val b
  end.

(** ** cache.h: object identifiers *)

(** Modelled from the spec: [null_sha1] is declared [extern] in cache.h and
    defined elsewhere; the spec calls it the designated all-zero value. *)
Definition null_sha1 : list byte := repeat x00 20.

Definition is_null_sha1 (sha1 : list byte) : bool :=
  memcmp sha1 null_sha1 20 =? 0.

Definition hashcmp (sha1 sha2 : list byte) : Z :=
  memcmp sha1 sha2 20.

Section Host.

(** The byte order of the machine the code runs on, and the two
    configuration variables [ce_mode_from_stat] reads. *)
Variable host : byte_order.
Variables trust_executable_bit has_symlinks : Z.

Definition htons (x : Z) : Z :=
  match host with
  | BigEndian => uint16 x
  | LittleEndian => bswap16 (uint16 x)
  end.

Definition ntohs (x : Z) : Z := htons x.

Definition htonl (x : Z) : Z :=
  match host with
  | BigEndian => uint32 x
  | LittleEndian => bswap32 (uint32 x)
  end.

Definition ntohl (x : Z) : Z := htonl x.

Definition create_ce_flags (len stage : Z) : Z :=
  htons (Z.lor len (Z.shiftl stage CE_STAGESHIFT)).

Definition ce_namelen (ce : cache_entry) : Z :=
  Z.land CE_NAMEMASK (ntohs (ce_flags ce)).

Definition ce_stage (ce : cache_entry) : Z :=
  Z.shiftr (Z.land CE_STAGEMASK (ntohs (ce_flags ce))) CE_STAGESHIFT.

Definition create_ce_mode (mode : Z) : Z :=
  if S_ISLNK mode then htonl S_IFLNK
  else if S_ISDIR mode || S_ISGITLINK mode then htonl S_IFGITLINK
  else htonl (Z.lor S_IFREG (ce_permissions mode)).

(** [ce] is a pointer that may be NULL. *)
Definition ce_mode_from_stat (ce : option cache_entry) (mode : Z) : Z :=
  match ce with
  | Some e =>
      if (has_symlinks =? 0) && S_ISREG mode && S_ISLNK (ntohl (ce_mode e))
      then ce_mode e
      else if (trust_executable_bit =? 0) && S_ISREG mode
      then (if S_ISREG (ntohl (ce_mode e)) then ce_mode e
            else create_ce_mode (octal 666))
      else create_ce_mode mode
  | None =>
      if (trust_executable_bit =? 0) && S_ISREG mode
      then create_ce_mode (octal 666)
      else create_ce_mode mode
  end.

End Host.

(** ** C strings and [struct strbuf]

    A [char *] is the list of bytes found at the pointer; the byte one past
    the end of the list is the terminating NUL, so [char_at] reads NUL
    there.  Advancing a pointer by [k] drops [k] bytes.  A [strbuf] is the
    list of bytes it holds ([len] is the length of the list). *)

Definition ch_nul       : byte := x00.
Definition ch_newline   : byte := x0a.   (* '\n' *)
Definition ch_return    : byte := x0d.   (* '\r' *)
Definition ch_slash     : byte := x2f.   (* '/'  *)

Definition char_at (s : list byte) (i : Z) : byte :=
  if i <? 0 then ch_nul else nth (Z.to_nat i) s ch_nul.

Definition ptr_add (s : list byte) (k : Z) : list byte :=
  skipn (Z.to_nat k) s.

Fixpoint strlen (s : list byte) : Z :=
  match s with
  | [] => 0
  | c :: s' => if Byte.eqb c ch_nul then 0 else 1 + strlen s'
  end.

(** The C string found at a pointer: the bytes before the first NUL, which
    is what a [%s] conversion prints. *)
Fixpoint c_string (s : list byte) : list byte :=
  match s with
  | [] => []
  | c :: s' => if Byte.eqb c ch_nul then [] else c :: c_string s'
  end.

Definition strbuf : Set := list byte.

Definition strbuf_addstr (sb : strbuf) (s : list byte) : strbuf := sb ++ s.
Definition strbuf_addch (sb : strbuf) (c : byte) : strbuf := sb ++ [c].

Definition str_updir   : list byte := list_byte_of_string "../".
Definition str_curdir  : list byte := list_byte_of_string "./".
Definition str_esc_n   : list byte := list_byte_of_string "\n".
Definition str_esc_r   : list byte := list_byte_of_string "\r".

(** ** wt-status.c: [quote_path] *)

Definition inspect {A : Type} (a : A) : {b : A | a = b} := exist _ a eq_refl.

(** The guard of the [while] loop that strips the directories [prefix] and
    [in] have in common. *)
Definition common_dir_guard (prefix in_ : list byte) (len off : Z) : bool :=
  negb (Byte.eqb (char_at prefix off) ch_nul)
  && (off <? len)
  && Byte.eqb (char_at prefix off) (char_at in_ off).

Lemma common_dir_guard_in_prefix (prefix in_ : list byte) (len off : Z) :
  common_dir_guard prefix in_ len off = true ->
  0 <= off < Z.of_nat (length prefix).
Proof.
  unfold common_dir_guard, char_at. intros H.
  apply andb_prop in H as [H _]. apply andb_prop in H as [H _].
  destruct (Z.ltb_spec off 0) as [Hneg | Hpos]; [discriminate H |].
  split; [exact Hpos |].
  destruct (Z.ltb_spec off (Z.of_nat (length prefix))) as [Hlt | Hge];
    [exact Hlt |].
  rewrite nth_overflow in H by lia. discriminate H.
Qed.

(** The [while] loop: the state is the three variables the loop assigns,
    [prefix], [in] and [len], and the scan offset [off]; the result is the
    value of the first three when the guard fails. *)
Equations? strip_common_dirs (prefix in_ : list byte) (len off : Z)
  : list byte * list byte * Z
  by wf (Z.to_nat (Z.of_nat (length prefix) - off)) lt :=
  strip_common_dirs prefix in_ len off
    with inspect (common_dir_guard prefix in_ len off) => {
    | exist _ true Hguard
        with Byte.eqb (char_at prefix off) ch_slash => {
        | true :=
            strip_common_dirs (ptr_add prefix (off + 1))
                              (ptr_add in_ (off + 1))
                              (len - (off + 1)) 0
        | false := strip_common_dirs prefix in_ len (off + 1) }
    | exist _ false _ := (prefix, in_, len) }.
Proof.
  all: apply common_dir_guard_in_prefix in Hguard.
  - unfold ptr_add. rewrite length_skipn. lia.
  - lia.
Qed.

(** The [for] loop over the rest of [prefix], up to its NUL: every '/' met
    appends one "../" to [out]. *)
Fixpoint add_updirs (prefix : list byte) (out : strbuf) : strbuf :=
  match prefix with
  | [] => out
  | c :: prefix' =>
      if Byte.eqb c ch_nul then out
      else add_updirs prefix'
             (if Byte.eqb c ch_slash then strbuf_addstr out str_updir else out)
  end.

(** [for ( ; len > 0; in++, len--)] with its [switch]; [len] is the number
    of iterations left. *)
Fixpoint quote_bytes (len : nat) (in_ : list byte) (out : strbuf) : strbuf :=
  match len with
  | O => out
  | S len' =>
      let ch := char_at in_ 0 in
      quote_bytes len' (ptr_add in_ 1)
        (if Byte.eqb ch ch_newline then strbuf_addstr out str_esc_n
         else if Byte.eqb ch ch_return then strbuf_addstr out str_esc_r
         else strbuf_addch out ch)
  end.

(** [prefix] may be NULL; the previous content of [out] is dropped by
    [strbuf_setlen(out, 0)]; the result is [out->buf]. *)
Definition quote_path (in_ : list byte) (len : Z) (out : strbuf)
                      (prefix : option (list byte)) : list byte :=
  let len := if len <? 0 then strlen in_ else len in
  let out : strbuf := [] in
  let '(in_, len, out) :=
    match prefix with
    | Some prefix =>
        let '(prefix, in_, len) := strip_common_dirs prefix in_ len 0 in
        (in_, len, add_updirs prefix out)
    | None => (in_, len, out)
    end in
  let out := quote_bytes (Z.to_nat len) in_ out in
  if (Z.of_nat (length out) =? 0) then strbuf_addstr out str_curdir else out.

(** What the listing shows for one byte of a path: the two-character
    escapes for '\n' and '\r', the byte itself otherwise. *)
Definition escape_byte (c : byte) : list byte :=
  if Byte.eqb c ch_newline then str_esc_n
  else if Byte.eqb c ch_return then str_esc_r
  else [c].

(** The number of '/' in a C string (up to its NUL). *)
Fixpoint count_slashes (s : list byte) : nat :=
  match s with
  | [] => O
  | c :: s' =>
      if Byte.eqb c ch_nul then O
      else if Byte.eqb c ch_slash then S (count_slashes s')
      else count_slashes s'
  end.

(** The number of leading bytes that the prefix and the first [avail]
    bytes of the input share up to and including their last shared '/':
    the leading directories the two have in common.  [pending] counts the
    shared bytes met since the last '/'. *)
Fixpoint common_dir_len (p in_ : list byte) (avail pending : nat) : nat :=
  match p, in_, avail with
  | c :: p', d :: in', S avail' =>
      if negb (Byte.eqb c ch_nul) && Byte.eqb c d then
        if Byte.eqb c ch_slash
        then (S pending + common_dir_len p' in' avail' 0)%nat
        else common_dir_len p' in' avail' (S pending)
      else O
  | _, _, _ => O
  end.

(** ** More of cache.h *)



(** [alloc_nr(x)] and the new value [ALLOC_GROW(x, nr, alloc)] gives to
    [alloc], on [unsigned int] operands as in [struct index_state]; the
    [xrealloc] of the array to that many slots is not modelled. *)
Definition alloc_nr (x : Z) : Z := uint32 (uint32 (x + 16) * 3) / 2.

Definition ALLOC_GROW (nr alloc : Z) : Z :=
  if alloc <? nr then
    (if alloc_nr alloc <? nr then nr else alloc_nr alloc)
  else alloc.

(** libc: [memcpy] and [memset] on buffers that hold [n] bytes. *)
Definition memcpy (dst src : list byte) (n : nat) : list byte :=
  firstn n src ++ skipn n dst.

Definition memset (dst : list byte) (c : byte) (n : nat) : list byte :=
  repeat c n ++ skipn n dst.

Definition hashcpy (sha_dst sha_src : list byte) : list byte :=
  memcpy sha_dst sha_src 20.

Definition hashclr (hash : list byte) : list byte :=
  memset hash x00 20.

Section HostMore.

Variable host : byte_order.

(** The macro [ce_size(ce)]; the struct field of the same name is
    [ce_size] above. *)
Definition ce_size_on_disk (ce : cache_entry) : Z :=
  cache_entry_size (ce_namelen host ce).

End HostMore.

(** ** The index: ordering and lookup

    [index_name_pos] is declared in cache.h and called by wt-status.c, but
    its body and the entry comparator it relies on are not among the
    sources at hand.  They are modelled from the spec. *)

Record index_state : Set := mk_index_state {
  cache : list cache_entry;     (* cache_nr is the length of the list *)
  cache_changed : Z;
  timestamp : Z
}.

Definition cache_nr (istate : index_state) : Z :=
  Z.of_nat (length (cache istate)).

(** Modelled from the spec: the path comparator.  "Names are compared as
    raw byte sequences"; "shorter prefix sorts first". *)
Fixpoint name_compare (a b : list byte) : comparison :=
  match a, b with
  | [], [] => Eq
  | [], _ :: _ => Lt
  | _ :: _, [] => Gt
  | x :: a', y :: b' =>
      match byte_val x ?= byte_val y with
      | Eq => name_compare a' b'
      | c => c
      end
  end.

(** Modelled from the spec: the order of entries, "on equal names, lower
    stage first". *)
Definition cache_name_compare (name1 : list byte) (stage1 : Z)
                              (name2 : list byte) (stage2 : Z) : comparison :=
  match name_compare name1 name2 with
  | Eq => stage1 ?= stage2
  | c => c
  end.

Section Index.

Variable host : byte_order.

(** The order of the index: by name, then by stage. *)
Definition entry_lt (a b : cache_entry) : Prop :=
  cache_name_compare (name a) (ce_stage host a) (name b) (ce_stage host b)
  = Lt.

Definition index_sorted (entries : list cache_entry) : Prop :=
  Sorted entry_lt entries.

(** Modelled from the spec: the body of [index_name_pos], "implemented as
    binary search over the sorted vector"; it looks for [(key, stage 0)]
    among the entries at positions [first <= i < last] and "returns a
    non-negative index if found at stage 0, or the bitwise-complement of
    the insertion point if absent". *)
Equations? index_name_pos_between
  (entries : list cache_entry) (key : list byte) (first last : Z) : Z
  by wf (Z.to_nat (last - first)) lt :=
  index_name_pos_between entries key first last
    with inspect (first <? last) => {
    | exist _ false _ := - first - 1
    | exist _ true Hlt
        with nth_error entries (Z.to_nat ((first + last) / 2)) => {
        | None := - first - 1
        | Some ce
            with cache_name_compare key 0 (name ce) (ce_stage host ce) => {
            | Eq := (first + last) / 2
            | Lt := index_name_pos_between entries key
                      first ((first + last) / 2)
            | Gt := index_name_pos_between entries key
                      ((first + last) / 2 + 1) last } } }.
Proof.
  all: apply Z.ltb_lt in Hlt.
  all: pose proof (Z.div_mod (first + last) 2 ltac:(lia)).
  all: pose proof (Z.mod_pos_bound (first + last) 2 ltac:(lia)).
  all: lia.
Qed.

(** Modelled from the spec: [index_name_pos], with the signature cache.h
    declares; the key is the first [namelen] bytes at [key]. *)
Definition index_name_pos (istate : index_state) (key : list byte)
                          (namelen : Z) : Z :=
  index_name_pos_between (cache istate) (firstn (Z.to_nat namelen) key)
                         0 (cache_nr istate).

Definition cache_name_pos := index_name_pos.

(** The sorted position of [(key, stage 0)]: the number of entries that
    sort before it. *)
Definition sorts_before (key : list byte) (ce : cache_entry) : bool :=
  match cache_name_compare (name ce) (ce_stage host ce) key 0 with
  | Lt => true
  | _ => false
  end.

Definition insertion_point (entries : list cache_entry) (key : list byte)
  : nat :=
  length (filter (sorts_before key) entries).

(** The searched key [(key, stage 0)] against an entry. *)
Definition key_cmp (key : list byte) (ce : cache_entry) : comparison :=
  cache_name_compare key 0 (name ce) (ce_stage host ce).

(** What a lookup returns: either a position holding the key at stage 0, or
    the complement of the position that splits the entries into those that
    sort before the key and those that sort after it. *)
Definition lookup_result (entries : list cache_entry) (key : list byte)
                         (r : Z) : Prop :=
  (0 <= r < Z.of_nat (length entries) /\
   exists ce, nth_error entries (Z.to_nat r) = Some ce /\
              name ce = key /\ ce_stage host ce = 0)
  \/
  (exists p : nat,
     r = - Z.of_nat p - 1 /\ (p <= length entries)%nat /\
     Forall (fun e => key_cmp key e = Gt) (firstn p entries) /\
     Forall (fun e => key_cmp key e = Lt) (skipn p entries)).

(** Placing an entry at a position of the vector, as an add does. *)
Definition insert_at (pos : nat) (ce : cache_entry)
                     (entries : list cache_entry) : list cache_entry :=
  firstn pos entries ++ ce :: skipn pos entries.

(** ** wt-status.c: [wt_status_print_untracked] *)

(** [struct dir_entry] is declared in dir.h, which is not among the
    sources; these are the two fields wt-status.c reads. *)
Record dir_entry : Set := mk_dir_entry {
  ent_len : Z;
  ent_name : list byte
}.

(** [struct wt_status] is declared in wt-status.h, which is not among the
    sources; these are the fields the function reads or writes. *)
Record wt_status : Set := mk_wt_status {
  prefix : option (list byte);
  untracked : Z;
  workdir_untracked : Z
}.

(** What reaches [s->fp]: the "Untracked files" header block, and one line
    per listed path carrying what "%s" prints of the quoted path. *)
Inductive status_line : Set :=
| UntrackedHeader
| UntrackedPath (quoted : list byte).

Inductive entry_action : Set :=
| ActionDie        (* die("bug in wt_status_print_untracked") *)
| ActionContinue   (* continue: the path is in the index, unmerged *)
| ActionShow.      (* fall through to the listing *)

(** The tests at the head of the loop body, for one scanned entry. *)
Definition untracked_entry_action (istate : index_state) (ent : dir_entry)
  : entry_action :=
  let pos := cache_name_pos istate (ent_name ent) (ent_len ent) in
  if 0 <=? pos then ActionDie
  else
    let pos := - pos - 1 in
    if pos <? cache_nr istate then
      match nth_error (cache istate) (Z.to_nat pos) with
      | Some ce =>
          if (ce_namelen host ce =? ent_len ent)
             && (memcmp (name ce) (ent_name ent) (Z.to_nat (ent_len ent)) =? 0)
          then ActionContinue
          else ActionShow
      | None => ActionShow
      end
    else ActionShow.

Inductive outcome : Set :=
| Died (printed : list status_line)
| Returned (s : wt_status) (printed : list status_line).

(** The [for] loop over [dir.entries]; [shown_header], [s] and the scratch
    buffer [buf] are the variables the loop updates, [printed] what was
    written so far. *)
Fixpoint print_untracked_loop
  (istate : index_state) (entries : list dir_entry)
  (s : wt_status) (shown_header : bool) (buf : strbuf)
  (printed : list status_line) : outcome :=
  match entries with
  | [] => Returned s printed
  | ent :: rest =>
      match untracked_entry_action istate ent with
      | ActionDie => Died printed
      | ActionContinue =>
          print_untracked_loop istate rest s shown_header buf printed
      | ActionShow =>
          let s' :=
            if shown_header then s
            else {| prefix := prefix s; untracked := untracked s;
                    workdir_untracked := 1 |} in
          let printed' :=
            if shown_header then printed else printed ++ [UntrackedHeader] in
          let buf' :=
            quote_path (ent_name ent) (ent_len ent) buf (prefix s') in
          print_untracked_loop istate rest s' true buf'
            (printed' ++ [UntrackedPath (c_string buf')])
      end
  end.

(** [entries] is what [read_directory] collected in [dir.entries]; [buf]
    starts empty ([strbuf_init]). *)
Definition wt_status_print_untracked
  (istate : index_state) (entries : list dir_entry) (s : wt_status)
  : outcome :=
  print_untracked_loop istate entries s false [] [].

(** A scanned path is tracked when some index entry, at whatever stage,
    bears exactly its name. *)
Definition name_eqb (a b : list byte) : bool :=
  match name_compare a b with Eq => true | _ => false end.

Definition tracked (istate : index_state) (ent : dir_entry) : bool :=
  existsb (fun ce => name_eqb (name ce) (ent_name ent)) (cache istate).

Definition tracked_at_stage0 (istate : index_state) (ent : dir_entry) : bool :=
  existsb (fun ce => name_eqb (name ce) (ent_name ent)
                     && (ce_stage host ce =? 0)) (cache istate).

(** The flags of an entry record the length of its name (names of up to
    0xFFF bytes, see [create_ce_flags]). *)
Definition namelen_recorded (ce : cache_entry) : Prop :=
  ce_namelen host ce = Z.of_nat (length (name ce)).

(** [read_directory] records in [len] the length of the scanned name. *)
Definition dir_entry_ok (ent : dir_entry) : Prop :=
  ent_len ent = Z.of_nat (length (ent_name ent)).

(** The lines a complete run writes for the scanned entries that are to be
    listed: the header block once, when there is something to list and it
    was not shown before, then one line per path. *)
Definition untracked_lines (s : wt_status) (shown_header : bool)
                           (listed : list dir_entry) : list status_line :=
  (if shown_header || (length listed =? 0)%nat then []
   else [UntrackedHeader])
  ++ map (fun ent =>
            UntrackedPath
              (c_string
                 (quote_path (ent_name ent) (ent_len ent) [] (prefix s))))
         listed.

End Index.

(** ** libc: [tolower] (C locale) and [strcasecmp] on C strings *)

Definition tolower (c : byte) : byte :=
  let v := byte_val c in
  if (65 <=? v) && (v <=? 90)
  then match Byte.of_N (Z.to_N (v + 32)) with Some l => l | None => c end
  else c.

Fixpoint strcasecmp (s1 s2 : list byte) : Z :=
  let c1 := byte_val (tolower (char_at s1 0)) in
  let c2 := byte_val (tolower (char_at s2 0)) in
  if negb (c1 =? c2) then c1 - c2
  else if c1 =? 0 then 0
  else match s1 with
       | [] => 0
       | _ :: s1' => strcasecmp s1' (ptr_add s2 1)
       end.

(** ** wt-status.c: colour slots *)

(** The slot numbers are declared in wt-status.h, which is not among the
    sources; they are the row numbers the initialiser of
    [wt_status_colors] gives them in its comments. *)
Definition WT_STATUS_HEADER    : Z := 0.
Definition WT_STATUS_UPDATED   : Z := 1.
Definition WT_STATUS_CHANGED   : Z := 2.
Definition WT_STATUS_UNTRACKED : Z := 3.

(** The initial content of [wt_status_colors]. *)
Definition wt_status_colors_init : list (list byte) :=
  [ [];
    x1b :: list_byte_of_string "[32m";
    x1b :: list_byte_of_string "[31m";
    x1b :: list_byte_of_string "[31m" ].

(** [None] stands for [die("bad config variable ...")]. *)
Definition parse_status_slot (var : list byte) (offset : Z) : option Z :=
  let key := ptr_add var offset in
  if strcasecmp key (list_byte_of_string "header") =? 0
  then Some WT_STATUS_HEADER
  else if (strcasecmp key (list_byte_of_string "updated") =? 0)
          || (strcasecmp key (list_byte_of_string "added") =? 0)
  then Some WT_STATUS_UPDATED
  else if strcasecmp key (list_byte_of_string "changed") =? 0
  then Some WT_STATUS_CHANGED
  else if strcasecmp key (list_byte_of_string "untracked") =? 0
  then Some WT_STATUS_UNTRACKED
  else None.

(** ** wt-status.c: printing

    What the functions write is recorded as the list of calls they make to
    the printing helpers, each with the colour string it is given and the
    text its format expands to.  A function that may [die] returns [None]
    in place of its result, together with what it had printed by then. *)

Inductive print_call : Set :=
| color_fprintf (color text : list byte)
| color_fprintf_ln (color text : list byte)
| fprintf (text : list byte).

Definition printing (A : Type) : Type := (list print_call * option A)%type.

Definition ret {A : Type} (a : A) : printing A := ([], Some a).

Definition bind {A B : Type} (m : printing A) (f : A -> printing B)
  : printing B :=
  match snd m with
  | None => (fst m, None)
  | Some a => (fst m ++ fst (f a), snd (f a))
  end.

Definition say (calls : list print_call) : printing unit := (calls, Some tt).

Definition die {A : Type} : printing A := ([], None).

Notation "x <- m ;; k" := (bind m (fun x => k))
  (at level 61, m at next level, right associativity).
Notation "m ;;; k" := (bind m (fun _ => k))
  (at level 61, right associativity).

Definition ch_dquote : list byte := [x22].

Definition use_add_msg : list byte :=
  list_byte_of_string "use " ++ ch_dquote
  ++ list_byte_of_string "git add <file>..." ++ ch_dquote
  ++ list_byte_of_string " to update what will be committed".

Definition use_add_rm_msg : list byte :=
  list_byte_of_string "use " ++ ch_dquote
  ++ list_byte_of_string "git add/rm <file>..." ++ ch_dquote
  ++ list_byte_of_string " to update what will be committed".

(** [struct diff_filespec] and [struct diff_filepair] are declared in
    diffcore.h, which is not among the sources; these are the fields
    wt-status.c reads. *)
Record diff_filespec : Set := mk_diff_filespec { path : list byte }.

Record diff_filepair : Set := mk_diff_filepair {
  one : diff_filespec;
  two : diff_filespec;
  status : byte
}.

(** The [DIFF_STATUS_xxx] letters are defined in diff.h, which is not among
    the sources; they are taken as a parameter. *)
Record diff_status_letters : Set := mk_diff_status_letters {
  DIFF_STATUS_ADDED : byte;
  DIFF_STATUS_COPIED : byte;
  DIFF_STATUS_DELETED : byte;
  DIFF_STATUS_MODIFIED : byte;
  DIFF_STATUS_RENAMED : byte;
  DIFF_STATUS_TYPE_CHANGED : byte;
  DIFF_STATUS_UNKNOWN : byte;
  DIFF_STATUS_UNMERGED : byte
}.

(** The other fields of [struct wt_status] that the printing callbacks read
    or write ([prefix] is in [wt_status] above). *)
Record wt_status_flags : Set := mk_wt_status_flags {
  reference : option (list byte);
  commitable : Z;
  workdir_dirty : Z
}.

(** The pairs [wt_status_print_updated_cb] does not pass over, and the
    flags after [s->commitable = 1] or [s->workdir_dirty = 1]. *)
Definition not_unmerged (p : diff_filepair) : bool :=
  negb (Byte.eqb (status p) x55).

Definition with_commitable (f : wt_status_flags) : wt_status_flags :=
  {| reference := reference f; commitable := 1;
     workdir_dirty := workdir_dirty f |}.

Definition with_workdir_dirty (f : wt_status_flags) : wt_status_flags :=
  {| reference := reference f; commitable := commitable f;
     workdir_dirty := 1 |}.

Section Printing.

(** The globals [wt_status_use_color] and [wt_status_colors], and the
    status letters. *)
Variable wt_status_use_color : Z.
Variable wt_status_colors : list (list byte).
Variable letters : diff_status_letters.

Definition color (slot : Z) : list byte :=
  if negb (wt_status_use_color =? 0)
  then nth (Z.to_nat slot) wt_status_colors []
  else [].

Definition wt_status_print_cached_header (f : wt_status_flags)
  : printing unit :=
  let c := color WT_STATUS_HEADER in
  say [color_fprintf_ln c (list_byte_of_string "# Changes to be committed:")]
  ;;;
  match reference f with
  | Some ref =>
      say [color_fprintf_ln c
             (list_byte_of_string "#   (use " ++ ch_dquote
              ++ list_byte_of_string "git reset " ++ c_string ref
              ++ list_byte_of_string " <file>..." ++ ch_dquote
              ++ list_byte_of_string " to unstage)")]
  | None =>
      say [color_fprintf_ln c
             (list_byte_of_string "#   (use " ++ ch_dquote
              ++ list_byte_of_string "git rm --cached <file>..." ++ ch_dquote
              ++ list_byte_of_string " to unstage)")]
  end ;;;
  say [color_fprintf_ln c (list_byte_of_string "#")].

Definition wt_status_print_header (main sub : list byte) : printing unit :=
  let c := color WT_STATUS_HEADER in
  say [color_fprintf_ln c
         (list_byte_of_string "# " ++ c_string main
          ++ list_byte_of_string ":")] ;;;
  say [color_fprintf_ln c
         (list_byte_of_string "#   (" ++ c_string sub
          ++ list_byte_of_string ")")] ;;;
  say [color_fprintf_ln c (list_byte_of_string "#")].

Definition wt_status_print_trailer : printing unit :=
  say [color_fprintf_ln (color WT_STATUS_HEADER) (list_byte_of_string "#")].

Definition wt_status_print_filepair (s : wt_status) (t : Z)
                                    (p : diff_filepair) : printing unit :=
  let c := color t in
  let one_ := quote_path (path (one p)) (-1) [] (prefix s) in
  let two_ := quote_path (path (two p)) (-1) [] (prefix s) in
  let arrow := list_byte_of_string " -> " in
  say [color_fprintf (color WT_STATUS_HEADER) [x23; x09]] ;;;
  (if Byte.eqb (status p) (DIFF_STATUS_ADDED letters) then
     say [color_fprintf c (list_byte_of_string "new file:   " ++ one_)]
   else if Byte.eqb (status p) (DIFF_STATUS_COPIED letters) then
     say [color_fprintf c
            (list_byte_of_string "copied:     " ++ one_ ++ arrow ++ two_)]
   else if Byte.eqb (status p) (DIFF_STATUS_DELETED letters) then
     say [color_fprintf c (list_byte_of_string "deleted:    " ++ one_)]
   else if Byte.eqb (status p) (DIFF_STATUS_MODIFIED letters) then
     say [color_fprintf c (list_byte_of_string "modified:   " ++ one_)]
   else if Byte.eqb (status p) (DIFF_STATUS_RENAMED letters) then
     say [color_fprintf c
            (list_byte_of_string "renamed:    " ++ one_ ++ arrow ++ two_)]
   else if Byte.eqb (status p) (DIFF_STATUS_TYPE_CHANGED letters) then
     say [color_fprintf c (list_byte_of_string "typechange: " ++ one_)]
   else if Byte.eqb (status p) (DIFF_STATUS_UNKNOWN letters) then
     say [color_fprintf c (list_byte_of_string "unknown:    " ++ one_)]
   else if Byte.eqb (status p) (DIFF_STATUS_UNMERGED letters) then
     say [color_fprintf c (list_byte_of_string "unmerged:   " ++ one_)]
   else die) ;;;
  say [fprintf [ch_newline]].

(** The status letters the [switch] of [wt_status_print_filepair] has a
    case for. *)
Definition handled_status (c : byte) : bool :=
  existsb (Byte.eqb c)
    [ DIFF_STATUS_ADDED letters; DIFF_STATUS_COPIED letters;
      DIFF_STATUS_DELETED letters; DIFF_STATUS_MODIFIED letters;
      DIFF_STATUS_RENAMED letters; DIFF_STATUS_TYPE_CHANGED letters;
      DIFF_STATUS_UNKNOWN letters; DIFF_STATUS_UNMERGED letters ].

(** The loop of [wt_status_print_updated_cb] over [q->queue]; the state is
    [shown_header] and the flags of [s]. *)
Fixpoint print_updated_loop (s : wt_status) (queue : list diff_filepair)
                            (f : wt_status_flags) (shown_header : bool)
  : printing (wt_status_flags * bool) :=
  match queue with
  | [] => ret (f, shown_header)
  | p :: rest =>
      if Byte.eqb (status p) x55 (* 'U' *) then
        print_updated_loop s rest f shown_header
      else
        st <- (if shown_header then ret (f, shown_header)
               else wt_status_print_cached_header f ;;;
                    ret ({| reference := reference f; commitable := 1;
                            workdir_dirty := workdir_dirty f |}, true)) ;;
        wt_status_print_filepair s WT_STATUS_UPDATED p ;;;
        print_updated_loop s rest (fst st) (snd st)
  end.

Definition wt_status_print_updated_cb
  (queue : list diff_filepair) (s : wt_status) (f : wt_status_flags)
  : printing wt_status_flags :=
  st <- print_updated_loop s queue f false ;;
  (if snd st then wt_status_print_trailer else ret tt) ;;;
  ret (fst st).

(** The first loop of [wt_status_print_changed_cb]: the message to show. *)
Fixpoint changed_msg (queue : list diff_filepair) (msg : list byte)
  : list byte :=
  match queue with
  | [] => msg
  | p :: rest =>
      if Byte.eqb (status p) (DIFF_STATUS_DELETED letters)
      then use_add_rm_msg
      else changed_msg rest msg
  end.

Fixpoint print_changed_loop (s : wt_status) (queue : list diff_filepair)
  : printing unit :=
  match queue with
  | [] => ret tt
  | p :: rest =>
      wt_status_print_filepair s WT_STATUS_CHANGED p ;;;
      print_changed_loop s rest
  end.

Definition wt_status_print_changed_cb
  (queue : list diff_filepair) (s : wt_status) (f : wt_status_flags)
  : printing wt_status_flags :=
  f' <- (if negb (Z.of_nat (length queue) =? 0) then
           wt_status_print_header
             (list_byte_of_string "Changed but not updated")
             (changed_msg queue use_add_msg) ;;;
           ret {| reference := reference f; commitable := commitable f;
                  workdir_dirty := 1 |}
         else ret f) ;;
  print_changed_loop s queue ;;;
  (if negb (Z.of_nat (length queue) =? 0)
   then wt_status_print_trailer else ret tt) ;;;
  ret f'.

End Printing.

(** The status letters as git's diff.h has them, for the examples. *)
Definition git_status_letters : diff_status_letters :=
  {| DIFF_STATUS_ADDED := x41; DIFF_STATUS_COPIED := x43;
     DIFF_STATUS_DELETED := x44; DIFF_STATUS_MODIFIED := x4d;
     DIFF_STATUS_RENAMED := x52; DIFF_STATUS_TYPE_CHANGED := x54;
     DIFF_STATUS_UNKNOWN := x58; DIFF_STATUS_UNMERGED := x55 |}.

(** An entry that carries the given mode and flags words and name, with the
    stat fields cleared (what [make_cache_entry] starts from). *)
Definition blank_entry (mode flags : Z) (path : list byte) : cache_entry :=
  {| ce_ctime := mk_cache_time 0 0; ce_mtime := mk_cache_time 0 0;
     ce_dev := 0; ce_ino := 0; ce_mode := mode; ce_uid := 0; ce_gid := 0;
     ce_size := 0; sha1 := repeat x00 20; ce_flags := flags; name := path |}.

(** The four canonical modes of an index entry. *)
Definition REG_0644 : Z := Z.lor S_IFREG (octal 644).
Definition REG_0755 : Z := Z.lor S_IFREG (octal 755).

Definition index_mode (m : Z) : Prop :=
  m = REG_0644 \/ m = REG_0755 \/ m = S_IFLNK \/ m = S_IFGITLINK.

(** ** A small index used in the examples

    "a" merged, "b" in conflict (stages 1 and 2), "b/c" and "d" merged. *)

Definition sample_entry (host : byte_order) (path : string) (stage : Z)
  : cache_entry :=
  let bytes := list_byte_of_string path in
  blank_entry (htonl host REG_0644)
              (create_ce_flags host (Z.of_nat (length bytes)) stage) bytes.

Definition sample_index (host : byte_order) : index_state :=
  {| cache := [ sample_entry host "a" 0; sample_entry host "b" 1;
                sample_entry host "b" 2; sample_entry host "b/c" 0;
                sample_entry host "d" 0 ];
     cache_changed := 0; timestamp := 0 |}.

Definition sample_dir_entry (path : string) : dir_entry :=
  let bytes := list_byte_of_string path in
  {| ent_len := Z.of_nat (length bytes); ent_name := bytes |}.

(* ===================================================================== *)
(** * Part II: properties                                                 *)
(* ===================================================================== *)

Example octal_160000 : octal 160000 = 0xE000.
Proof. reflexivity. Qed.

Example offsetof_name_62 : offsetof_name = 62.
Proof. reflexivity. Qed.

(** ** Byte order *)

Lemma bswap16_involutive (x : Z) :
  0 <= x < 65536 -> bswap16 (bswap16 x) = x.
Proof.
  intros Hx. unfold bswap16.
  pose proof (Z.div_mod x 256 ltac:(lia)) as Hdm.
  pose proof (Z.mod_pos_bound x 256 ltac:(lia)) as Hlo.
  assert (Hhi : 0 <= x / 256 < 256).
  { split; [apply Z.div_pos; lia | apply Z.div_lt_upper_bound; lia]. }
  rewrite (Z.mod_small (x / 256) 256) by lia.
  replace ((x mod 256 * 256 + x / 256) mod 256) with (x / 256).
  2:{ rewrite Z.add_comm, Z.mod_add by lia. rewrite Z.mod_small; lia. }
  replace ((x mod 256 * 256 + x / 256) / 256) with (x mod 256).
  2:{ rewrite Z.add_comm, Z.div_add by lia.
      rewrite (Z.div_small (x / 256)) by lia. lia. }
  rewrite (Z.mod_small (x mod 256)) by lia. lia.
Qed.

Lemma bswap16_range (x : Z) : 0 <= bswap16 x < 65536.
Proof.
  unfold bswap16.
  pose proof (Z.mod_pos_bound x 256 ltac:(lia)).
  pose proof (Z.mod_pos_bound (x / 256) 256 ltac:(lia)).
  lia.
Qed.

Lemma uint16_range (x : Z) : 0 <= uint16 x < 65536.
Proof. unfold uint16. apply Z.mod_pos_bound. lia. Qed.

Lemma uint16_small (x : Z) : 0 <= x < 65536 -> uint16 x = x.
Proof. unfold uint16. intros. apply Z.mod_small. lia. Qed.

Lemma ntohs_htons (host : byte_order) (x : Z) :
  ntohs host (htons host x) = uint16 x.
Proof.
  unfold ntohs, htons. destruct host.
  - rewrite (uint16_small (bswap16 _)) by apply bswap16_range.
    apply bswap16_involutive, uint16_range.
  - apply uint16_small, uint16_range.
Qed.

(** The four canonical mode words survive the trip through network order. *)
Lemma ntohl_htonl_modes (host : byte_order) :
  ntohl host (htonl host REG_0644) = REG_0644 /\
  ntohl host (htonl host REG_0755) = REG_0755 /\
  ntohl host (htonl host S_IFLNK) = S_IFLNK /\
  ntohl host (htonl host S_IFGITLINK) = S_IFGITLINK.
Proof. destruct host; repeat split; reflexivity. Qed.

(** ** File-type tests *)

Lemma ce_permissions_cases (mode : Z) :
  ce_permissions mode = octal 644 \/ ce_permissions mode = octal 755.
Proof.
  unfold ce_permissions.
  destruct (Z.land mode (octal 100) =? 0); simpl; [left | right]; reflexivity.
Qed.

(** At most one of the file-type tests holds of a mode. *)
Ltac file_type_cases m :=
  unfold S_ISREG, S_ISLNK, S_ISDIR, S_ISGITLINK in *;
  generalize dependent (Z.land m S_IFMT); intros fmt_bits; intros;
  repeat match goal with
         | |- context [fmt_bits =? ?c] => destruct (Z.eqb_spec fmt_bits c)
         | H : context [fmt_bits =? ?c] |- _ => destruct (Z.eqb_spec fmt_bits c)
         end;
  subst; try discriminate; try (exfalso; congruence).

Lemma create_ce_mode_cases (host : byte_order) (mode : Z) :
  create_ce_mode host mode = htonl host REG_0644 \/
  create_ce_mode host mode = htonl host REG_0755 \/
  create_ce_mode host mode = htonl host S_IFLNK \/
  create_ce_mode host mode = htonl host S_IFGITLINK.
Proof.
  unfold create_ce_mode.
  destruct (ce_permissions_cases mode) as [Hp | Hp]; rewrite Hp.
  all: destruct (S_ISLNK mode); [tauto |].
  all: destruct (S_ISDIR mode || S_ISGITLINK mode); tauto.
Qed.

Lemma create_ce_mode_0666 (host : byte_order) :
  create_ce_mode host (octal 666) = htonl host REG_0644.
Proof. reflexivity. Qed.

(** C1 (as stated) fails for [canon_mode]: a directory mode canonicalises to
    [S_IFDIR], which is none of the four index modes. *)
Lemma canon_mode_keeps_directory :
  canon_mode (Z.lor S_IFDIR (octal 755)) = S_IFDIR /\
  ~ index_mode (canon_mode (Z.lor S_IFDIR (octal 755))).
Proof.
  split; [reflexivity |].
  unfold index_mode. vm_compute. intros [H | [H | [H | H]]]; discriminate H.
Qed.

(** C1 (amended): for every raw mode, [create_ce_mode] yields, up to network
    byte order, one of regular 0644, regular 0755, symlink or gitlink, and
    a directory mode becomes a gitlink; [canon_mode] yields one of these
    four for every mode that is not a directory mode, and yields [S_IFDIR]
    exactly for directory modes. *)
Theorem canon_mode_range (host : byte_order) (mode : Z) :
  index_mode (ntohl host (create_ce_mode host mode)) /\
  ((S_ISDIR mode = false /\ index_mode (canon_mode mode)) \/
   (S_ISDIR mode = true /\ canon_mode mode = S_IFDIR /\
    ntohl host (create_ce_mode host mode) = S_IFGITLINK)).
Proof.
  split.
  - destruct (ntohl_htonl_modes host) as (H1 & H2 & H3 & H4).
    unfold index_mode.
    destruct (create_ce_mode_cases host mode) as [H | [H | [H | H]]];
      rewrite H; tauto.
  - destruct (S_ISDIR mode) eqn:Hdir.
    + right. split; [reflexivity |]. split.
      * unfold canon_mode. revert Hdir. file_type_cases mode; reflexivity.
      * destruct (ntohl_htonl_modes host) as (_ & _ & _ & H4).
        assert (Hc : create_ce_mode host mode = htonl host S_IFGITLINK).
        { unfold create_ce_mode. rewrite Hdir.
          revert Hdir. file_type_cases mode; reflexivity. }
        rewrite Hc. exact H4.
    + left. split; [reflexivity |].
      unfold canon_mode, index_mode.
      destruct (ce_permissions_cases mode) as [Hp | Hp]; rewrite Hp.
      all: fold REG_0644; fold REG_0755.
      all: revert Hdir; file_type_cases mode; tauto.
Qed.

(** C3 (as stated) fails: with executability tracking off, an existing
    regular entry recorded as 0755 keeps 0755 although the stat says 0644. *)
Lemma ce_mode_from_stat_keeps_0755 :
  let ce := blank_entry (htonl LittleEndian REG_0755) 0 [] in
  S_ISREG REG_0644 = true /\
  ce_mode_from_stat LittleEndian 0 1 (Some ce) REG_0644
    = htonl LittleEndian REG_0755 /\
  ce_mode_from_stat LittleEndian 0 1 (Some ce) REG_0644
    <> htonl LittleEndian REG_0644.
Proof. vm_compute. repeat split; discriminate. Qed.

(** C3 (amended): with [trust_executable_bit] off and a stat that reports a
    regular file, [ce_mode_from_stat] returns regular 0644 when there is no
    existing entry, or when the existing entry is not a regular file (and
    not a symlink kept because symlinks are unsupported); an existing
    regular entry keeps the mode it records, whether 0644 or 0755. *)
Theorem ce_mode_from_stat_untrusted_exec
  (host : byte_order) (has_symlinks mode : Z) (Hreg : S_ISREG mode = true) :
  ce_mode_from_stat host 0 has_symlinks None mode = htonl host REG_0644 /\
  forall e : cache_entry,
    let old := ntohl host (ce_mode e) in
    ce_mode_from_stat host 0 has_symlinks (Some e) mode =
      if S_ISREG old then ce_mode e
      else if (has_symlinks =? 0) && S_ISLNK old then ce_mode e
      else htonl host REG_0644.
Proof.
  split.
  - unfold ce_mode_from_stat. rewrite Hreg. reflexivity.
  - intros e old. unfold ce_mode_from_stat. fold old. rewrite Hreg.
    rewrite create_ce_mode_0666.
    destruct (has_symlinks =? 0); simpl.
    + destruct (S_ISLNK old) eqn:Hl; destruct (S_ISREG old) eqn:Hr;
        reflexivity.
    + destruct (S_ISREG old); reflexivity.
Qed.

Lemma ce_mode_from_stat_untrusted_exec_witness :
  S_ISREG REG_0755 = true /\
  ce_mode_from_stat BigEndian 0 1 None REG_0755 = htonl BigEndian REG_0644.
Proof.
  split; [reflexivity |].
  apply (ce_mode_from_stat_untrusted_exec BigEndian 1 REG_0755).
  reflexivity.
Defined.

(** C4: with [has_symlinks] off, an existing symlink entry keeps its mode
    word unchanged when the stat reports a regular file, whatever
    [trust_executable_bit] says. *)
Theorem ce_mode_from_stat_keeps_symlink
  (host : byte_order) (trust_executable_bit mode : Z) (e : cache_entry)
  (Hlnk : S_ISLNK (ntohl host (ce_mode e)) = true)
  (Hreg : S_ISREG mode = true) :
  ce_mode_from_stat host trust_executable_bit 0 (Some e) mode = ce_mode e /\
  S_ISLNK (ntohl host
    (ce_mode_from_stat host trust_executable_bit 0 (Some e) mode)) = true.
Proof.
  assert (H : ce_mode_from_stat host trust_executable_bit 0 (Some e) mode
              = ce_mode e).
  { unfold ce_mode_from_stat. rewrite Hreg, Hlnk. reflexivity. }
  rewrite H. split; [reflexivity | exact Hlnk].
Qed.

Lemma ce_mode_from_stat_keeps_symlink_witness :
  let e := blank_entry (htonl LittleEndian S_IFLNK) 0 [] in
  ce_mode_from_stat LittleEndian 1 0 (Some e) REG_0644 = ce_mode e.
Proof.
  intros e.
  apply (ce_mode_from_stat_keeps_symlink LittleEndian 1 REG_0644 e);
    reflexivity.
Defined.

(** ** Gitlinks *)

Lemma testbit_S_IFMT (i : Z) :
  Z.testbit S_IFMT i = (12 <=? i) && (i <? 16).
Proof.
  change S_IFMT with (Z.shiftl (Z.ones 4) 12).
  destruct (Z.ltb_spec i 0) as [Hneg | Hpos].
  - rewrite Z.testbit_neg_r by lia.
    destruct (Z.leb_spec 12 i); [lia | reflexivity].
  - rewrite Z.shiftl_spec by lia.
    rewrite Z.testbit_ones by lia.
    destruct (Z.leb_spec 0 (i - 12)), (Z.leb_spec 12 i);
      destruct (Z.ltb_spec (i - 12) 4), (Z.ltb_spec i 16);
      simpl; reflexivity || lia.
Qed.

Lemma format_bits_eq (m c : Z) :
  0 <= c ->
  (forall i, Z.testbit c i = true -> 12 <= i < 16) ->
  (Z.land m S_IFMT = c <->
   (Z.testbit m 12 = Z.testbit c 12 /\ Z.testbit m 13 = Z.testbit c 13 /\
    Z.testbit m 14 = Z.testbit c 14 /\ Z.testbit m 15 = Z.testbit c 15)).
Proof.
  intros Hc Hbits. split.
  - intros H. rewrite <- H. rewrite !Z.land_spec, !testbit_S_IFMT. simpl.
    rewrite !andb_true_r. tauto.
  - intros (H12 & H13 & H14 & H15).
    apply Z.bits_inj'. intros i Hi.
    rewrite Z.land_spec, testbit_S_IFMT.
    destruct (Z.leb_spec 12 i); destruct (Z.ltb_spec i 16); simpl;
      rewrite ?andb_true_r, ?andb_false_r.
    + assert (Hc4 : i = 12 \/ i = 13 \/ i = 14 \/ i = 15) by lia.
      destruct Hc4 as [-> | [-> | [-> | ->]]]; assumption.
    + destruct (Z.testbit c i) eqn:E; [apply Hbits in E; lia | reflexivity].
    + destruct (Z.testbit c i) eqn:E; [apply Hbits in E; lia | reflexivity].
    + lia.
Qed.

(** C8: [S_ISGITLINK m] holds exactly when the four format bits of [m]
    (bits 12 to 15, the mask 0170000) read 0160000, that is 1110 from bit 15
    down to bit 12; and [object_type] maps every gitlink mode to
    [OBJ_COMMIT], every directory mode to [OBJ_TREE] and the rest to
    [OBJ_BLOB]. *)
Theorem gitlink_mode_is_commit (m : Z) :
  S_IFGITLINK = octal 160000 /\
  (S_ISGITLINK m = true <-> Z.land m (octal 170000) = octal 160000) /\
  (S_ISGITLINK m = true <->
     (Z.testbit m 15 = true /\ Z.testbit m 14 = true /\
      Z.testbit m 13 = true /\ Z.testbit m 12 = false)) /\
  object_type m =
    (if S_ISGITLINK m then OBJ_COMMIT
     else if S_ISDIR m then OBJ_TREE else OBJ_BLOB).
Proof.
  split; [reflexivity |]. split; [| split].
  - unfold S_ISGITLINK. apply Z.eqb_eq.
  - unfold S_ISGITLINK. rewrite Z.eqb_eq.
    rewrite (format_bits_eq m S_IFGITLINK).
    + change (Z.testbit S_IFGITLINK 12) with false.
      change (Z.testbit S_IFGITLINK 13) with true.
      change (Z.testbit S_IFGITLINK 14) with true.
      change (Z.testbit S_IFGITLINK 15) with true. tauto.
    + unfold S_IFGITLINK. lia.
    + intros i Hi.
      change S_IFGITLINK with (Z.shiftl 7 13) in Hi.
      destruct (Z.ltb_spec i 0); [rewrite Z.testbit_neg_r in Hi by lia;
                                  discriminate |].
      rewrite Z.shiftl_spec in Hi by lia.
      destruct (Z.ltb_spec (i - 13) 0);
        [rewrite Z.testbit_neg_r in Hi by lia; discriminate |].
      destruct (Z.ltb_spec (i - 13) 3); [lia |].
      change 7 with (Z.ones 3) in Hi.
      rewrite Z.ones_spec_high in Hi by lia. discriminate.
  - unfold object_type. file_type_cases m; reflexivity.
Qed.

(** ** Entry flags *)

Lemma ce_namelen_create (host : byte_order) (len stage mode : Z)
      (path : list byte) :
  0 <= stage ->
  ce_namelen host (blank_entry mode (create_ce_flags host len stage) path)
  = len mod 4096.
Proof.
  intros Hs. unfold ce_namelen, create_ce_flags, blank_entry. cbn [ce_flags].
  rewrite ntohs_htons. unfold uint16, CE_NAMEMASK, CE_STAGESHIFT.
  change 0x0fff with (Z.ones 12). rewrite Z.land_comm, Z.land_ones by lia.
  change 65536 with (2 ^ 16). change 4096 with (2 ^ 12).
  apply Z.bits_inj'. intros i Hi.
  rewrite !Z.testbit_mod_pow2 by lia.
  destruct (Z.ltb_spec i 12); cbn [andb]; [| reflexivity].
  destruct (Z.ltb_spec i 16); [| lia]. cbn [andb].
  rewrite Z.lor_spec, Z.shiftl_spec by lia.
  rewrite (Z.testbit_neg_r stage) by lia. apply orb_false_r.
Qed.

Lemma ce_stage_create (host : byte_order) (len stage mode : Z)
      (path : list byte) :
  ce_stage host (blank_entry mode (create_ce_flags host len stage) path)
  = Z.lor (len / 4096) stage mod 4.
Proof.
  unfold ce_stage, create_ce_flags, blank_entry. cbn [ce_flags].
  rewrite ntohs_htons. unfold uint16, CE_STAGEMASK, CE_STAGESHIFT.
  change 65536 with (2 ^ 16). change 4096 with (2 ^ 12). change 4 with (2 ^ 2).
  change 0x3000 with (Z.shiftl (Z.ones 2) 12).
  rewrite <- (Z.shiftr_div_pow2 len 12) by lia.
  apply Z.bits_inj'. intros i Hi.
  rewrite Z.shiftr_spec, Z.land_spec, Z.shiftl_spec by lia.
  rewrite !Z.testbit_mod_pow2 by lia.
  replace (i + 12 - 12) with i by lia.
  rewrite Z.testbit_ones_nonneg by lia.
  rewrite !Z.lor_spec, Z.shiftr_spec, Z.shiftl_spec by lia.
  replace (i + 12 - 12) with i by lia.
  destruct (Z.ltb_spec i 2); cbn [andb]; [| reflexivity].
  destruct (Z.ltb_spec (i + 12) 16); [| lia]. reflexivity.
Qed.

(** Entries built by [create_ce_flags] from a name of at most 0xFFF bytes
    record the length of that name. *)
Lemma namelen_recorded_create (host : byte_order) (stage mode : Z)
      (path : list byte) :
  0 <= stage -> Z.of_nat (length path) <= 0xFFF ->
  namelen_recorded host
    (blank_entry mode
       (create_ce_flags host (Z.of_nat (length path)) stage) path).
Proof.
  intros Hs Hlen. unfold namelen_recorded.
  rewrite ce_namelen_create by exact Hs.
  cbn [name blank_entry]. apply Z.mod_small. lia.
Qed.

(** C2 (as stated) fails: a name of 0x1000 bytes at stage 0 is not stored as
    0xFFF; its length reads back as 0 and its bit 12 lands in the stage. *)
Lemma create_ce_flags_does_not_clamp :
  let ce := blank_entry 0 (create_ce_flags LittleEndian 0x1000 0) [] in
  ce_namelen LittleEndian ce <> Z.min 0x1000 0xFFF /\
  ce_namelen LittleEndian ce = 0 /\
  ce_stage LittleEndian ce <> 0.
Proof. vm_compute. repeat split; discriminate. Qed.

(** C2 (amended): for every name length [0 <= len <= 0xFFF] and every stage
    in 0..3, an entry whose flags were built by [create_ce_flags len stage]
    decodes to [ce_namelen = len] (which is [min len 0xFFF]) and
    [ce_stage = stage].  [create_ce_flags] does not clamp: for any
    [len >= 0] the name length read back is [len mod 0x1000] and the bits
    of [len] above the low twelve are or-ed into the stage. *)
Theorem create_ce_flags_roundtrip
  (host : byte_order) (len stage mode : Z) (path : list byte)
  (Hlen : 0 <= len) (Hstage : 0 <= stage <= 3) :
  let ce := blank_entry mode (create_ce_flags host len stage) path in
  ce_namelen host ce = len mod 0x1000 /\
  ce_stage host ce = Z.lor (len / 0x1000) stage mod 4 /\
  (len <= 0xFFF ->
   ce_namelen host ce = Z.min len 0xFFF /\ ce_namelen host ce = len /\
   ce_stage host ce = stage).
Proof.
  intros ce. subst ce.
  rewrite ce_namelen_create by lia. rewrite ce_stage_create.
  split; [reflexivity |]. split; [reflexivity |].
  intros Hsmall.
  rewrite Z.min_l by lia. rewrite Z.mod_small by lia.
  rewrite (Z.div_small len) by lia. rewrite Z.lor_0_l.
  rewrite Z.mod_small by lia. auto.
Qed.

Lemma create_ce_flags_roundtrip_witness :
  let ce := blank_entry 0 (create_ce_flags LittleEndian 6 2) [] in
  ce_namelen LittleEndian ce = 6 /\ ce_stage LittleEndian ce = 2.
Proof.
  intros ce.
  destruct (create_ce_flags_roundtrip LittleEndian 6 2 0 [])
    as (_ & _ & H); [lia | lia |].
  destruct H as (_ & Hn & Hs); [lia |]. split; assumption.
Defined.

(** ** On-disk entry size *)

Lemma land_lnot_7 (x : Z) : Z.land x (Z.lnot 7) = 8 * (x / 8).
Proof.
  change 7 with (Z.ones 3).
  rewrite <- Z.ldiff_land, Z.ldiff_ones_r by lia.
  rewrite Z.shiftl_mul_pow2, Z.shiftr_div_pow2 by lia.
  change (2 ^ 3) with 8. lia.
Qed.

(** C5: for every name length [len >= 0], [cache_entry_size len] is a
    multiple of 8 and leaves room for the name and at least one NUL (and at
    most eight); the fixed header is 62 bytes and a 6-byte name gives a
    72-byte entry. *)
Theorem cache_entry_size_aligned (len : Z) (Hlen : 0 <= len) :
  cache_entry_size len mod 8 = 0 /\
  offsetof_name + len + 1 <= cache_entry_size len <= offsetof_name + len + 8 /\
  offsetof_name = 62 /\
  cache_entry_size 6 = 72.
Proof.
  unfold cache_entry_size. rewrite land_lnot_7.
  change offsetof_name with 62.
  split; [| split; [| split; reflexivity]].
  - rewrite Z.mul_comm. apply Z.mod_mul. lia.
  - pose proof (Z.div_mod (62 + len + 8) 8 ltac:(lia)).
    pose proof (Z.mod_pos_bound (62 + len + 8) 8 ltac:(lia)).
    lia.
Qed.

Lemma cache_entry_size_aligned_witness :
  cache_entry_size 6 mod 8 = 0 /\
  offsetof_name + 6 + 1 <= cache_entry_size 6 <= offsetof_name + 6 + 8.
Proof.
  destruct (cache_entry_size_aligned 6) as (H1 & H2 & _); [lia |].
  split; assumption.
Defined.

(** ** [memcmp] and object identifiers *)

Lemma byte_val_inj (a b : byte) : byte_val a = byte_val b -> a = b.
Proof.
  unfold byte_val. intros H. apply N2Z.inj in H.
  pose proof (Byte.of_to_N a) as Ha. rewrite H, Byte.of_to_N in Ha.
  congruence.
Qed.

Lemma byte_eqb_spec (a b : byte) : reflect (a = b) (Byte.eqb a b).
Proof.
  destruct (Byte.eqb a b) eqn:E; constructor.
  - now apply Byte.byte_dec_bl.
  - now apply Byte.eqb_false.
Qed.

Lemma memcmp_zero_iff (n : nat) :
  forall s1 s2 : list byte,
    (n <= length s1)%nat -> (n <= length s2)%nat ->
    (memcmp s1 s2 n = 0 <-> firstn n s1 = firstn n s2).
Proof.
  induction n as [| n IH]; intros s1 s2 H1 H2.
  - simpl. tauto.
  - destruct s1 as [| a s1]; [simpl in H1; lia |].
    destruct s2 as [| b s2]; [simpl in H2; lia |].
    simpl in H1, H2. cbn [memcmp hd tl firstn].
    destruct (Z.eqb_spec (byte_val a) (byte_val b)) as [E | E].
    + apply byte_val_inj in E. subst b.
      rewrite (IH s1 s2) by lia. split; intros H.
      * now rewrite H.
      * now injection H.
    + split; intros H; [lia |].
      injection H as Hab _. subst b. contradiction.
Qed.

Lemma all_bytes_equal (n : nat) (a b : list byte) :
  length a = n -> length b = n ->
  (a = b <-> forall i, (i < n)%nat -> nth i a x00 = nth i b x00).
Proof.
  intros Ha Hb. split.
  - intros -> i _. reflexivity.
  - intros H. apply (nth_ext a b x00 x00); [congruence |].
    intros i Hi. apply H. lia.
Qed.

(** C7: on 20-byte digests, [hashcmp a b] is 0 exactly when [a] and [b]
    agree in every one of the 20 bytes, and [is_null_sha1 a] holds exactly
    when every one of the 20 bytes of [a] is zero. *)
Theorem hashcmp_bytewise (a b : list byte)
  (Ha : length a = 20%nat) (Hb : length b = 20%nat) :
  (hashcmp a b = 0 <-> a = b) /\
  (hashcmp a b = 0 <->
     forall i, (i < 20)%nat -> nth i a x00 = nth i b x00) /\
  (is_null_sha1 a = true <-> a = repeat x00 20) /\
  (is_null_sha1 a = true <-> forall i, (i < 20)%nat -> nth i a x00 = x00).
Proof.
  assert (Hcmp : forall c, length c = 20%nat -> (memcmp a c 20 = 0 <-> a = c)).
  { intros c Hc. rewrite memcmp_zero_iff by lia.
    rewrite <- (firstn_all a) at 2. rewrite <- (firstn_all c) at 2.
    rewrite Ha, Hc. tauto. }
  assert (Hnull : is_null_sha1 a = true <-> a = repeat x00 20).
  { unfold is_null_sha1, null_sha1. rewrite Z.eqb_eq.
    apply Hcmp. apply repeat_length. }
  unfold hashcmp. split; [apply Hcmp, Hb |]. split; [| split].
  - rewrite (Hcmp b Hb). apply all_bytes_equal; assumption.
  - exact Hnull.
  - rewrite Hnull.
    rewrite (all_bytes_equal 20 a (repeat x00 20) Ha (repeat_length _ _)).
    split; intros H i Hi; specialize (H i Hi).
    + rewrite H. apply nth_repeat.
    + rewrite H. symmetry. apply nth_repeat.
Qed.

Lemma hashcmp_bytewise_witness :
  hashcmp null_sha1 null_sha1 = 0 <-> null_sha1 = null_sha1.
Proof.
  apply (hashcmp_bytewise null_sha1 null_sha1); reflexivity.
Defined.

(** ** [quote_path] *)

Lemma strip_common_dirs_step (prefix in_ : list byte) (len off : Z) :
  strip_common_dirs prefix in_ len off =
    if common_dir_guard prefix in_ len off
    then if Byte.eqb (char_at prefix off) ch_slash
         then strip_common_dirs (ptr_add prefix (off + 1))
                (ptr_add in_ (off + 1)) (len - (off + 1)) 0
         else strip_common_dirs prefix in_ len (off + 1)
    else (prefix, in_, len).
Proof.
  funelim (strip_common_dirs prefix in_ len off).
  - rewrite e. reflexivity.
  - rewrite Hguard, Heq. reflexivity.
  - rewrite Hguard, Heq. reflexivity.
Qed.

Lemma firstn_snoc_nth {A : Type} (d : A) (l : list A) (n : nat) :
  (n < length l)%nat -> firstn (S n) l = firstn n l ++ [nth n l d].
Proof.
  revert l. induction n as [| n IH]; intros [| a l] H; simpl in *;
    try lia; [reflexivity |].
  f_equal. apply IH. lia.
Qed.

Lemma firstn_plus {A : Type} (l : list A) (a b : nat) :
  firstn (a + b) l = firstn a l ++ firstn b (skipn a l).
Proof.
  revert l. induction a as [| a IH]; intros [| x l]; simpl;
    rewrite ?firstn_nil; try reflexivity.
  f_equal. apply IH.
Qed.

(** What the loop guard tells about the byte under the scan offset. *)
Lemma common_dir_guard_true (prefix in_ : list byte) (len off : Z) :
  common_dir_guard prefix in_ len off = true ->
  0 <= off < len /\
  (Z.to_nat off < length prefix)%nat /\ (Z.to_nat off < length in_)%nat /\
  nth (Z.to_nat off) prefix ch_nul = nth (Z.to_nat off) in_ ch_nul.
Proof.
  intros H. pose proof (common_dir_guard_in_prefix _ _ _ _ H) as Hoff.
  unfold common_dir_guard, char_at in H.
  destruct (Z.ltb_spec off 0) as [Hneg | _]; [lia |].
  apply andb_prop in H as [H Heq]. apply andb_prop in H as [Hnz Hlt].
  apply Z.ltb_lt in Hlt.
  destruct (byte_eqb_spec (nth (Z.to_nat off) prefix ch_nul)
                          (nth (Z.to_nat off) in_ ch_nul)) as [E | E];
    [| discriminate Heq].
  repeat split; try lia; [| exact E].
  destruct (Nat.lt_ge_cases (Z.to_nat off) (length in_)) as [Hin | Hin];
    [exact Hin |].
  rewrite (nth_overflow in_) in E by lia. rewrite E in Hnz.
  discriminate Hnz.
Qed.

(** The loop strips from [prefix] and [in] the same number [k] of leading
    bytes, on which the two agree; [k] never exceeds [len]. *)
Lemma strip_common_dirs_inv (prefix in_ : list byte) (len off : Z) :
  0 <= off ->
  (Z.to_nat off <= length prefix)%nat -> (Z.to_nat off <= length in_)%nat ->
  firstn (Z.to_nat off) prefix = firstn (Z.to_nat off) in_ ->
  exists k : nat,
    (k = 0%nat \/ Z.of_nat k <= len) /\
    strip_common_dirs prefix in_ len off
      = (skipn k prefix, skipn k in_, len - Z.of_nat k) /\
    firstn k prefix = firstn k in_ /\
    (k <= length prefix)%nat /\ (k <= length in_)%nat.
Proof.
  funelim (strip_common_dirs prefix in_ len off); intros Hoff Hp Hi Hagree.
  - exists 0%nat. simpl. rewrite Z.sub_0_r.
    repeat split; auto; lia.
  - destruct (common_dir_guard_true _ _ _ _ Hguard) as (Hlt & Hlp & Hli & Hnth).
    destruct H as (k & Hk & Hres & Hfst & Hkp & Hki);
      [lia | simpl; lia | simpl; lia | reflexivity |].
    unfold ptr_add in *. rewrite !length_skipn in *.
    exists (Z.to_nat (off + 1) + k)%nat.
    assert (Hsucc : Z.to_nat (off + 1) = S (Z.to_nat off)) by lia.
    repeat split.
    + right. lia.
    + rewrite Hres, !skipn_skipn.
      rewrite (Nat.add_comm k). f_equal. lia.
    + rewrite !firstn_plus, Hfst. f_equal.
      rewrite Hsucc.
      rewrite (firstn_snoc_nth ch_nul _ _ Hlp), (firstn_snoc_nth ch_nul _ _ Hli).
      now rewrite Hagree, Hnth.
    + lia.
    + lia.
  - destruct (common_dir_guard_true _ _ _ _ Hguard) as (Hlt & Hlp & Hli & Hnth).
    assert (Hsucc : Z.to_nat (off + 1) = S (Z.to_nat off)) by lia.
    apply H; try lia.
    rewrite Hsucc.
    rewrite (firstn_snoc_nth ch_nul _ _ Hlp), (firstn_snoc_nth ch_nul _ _ Hli).
    now rewrite Hagree, Hnth.
Qed.

Lemma add_updirs_spec (prefix : list byte) :
  forall out : strbuf,
    add_updirs prefix out
    = out ++ concat (repeat str_updir (count_slashes prefix)).
Proof.
  induction prefix as [| c p IH]; intros out; simpl.
  - now rewrite app_nil_r.
  - destruct (Byte.eqb c ch_nul); [now rewrite app_nil_r |].
    destruct (Byte.eqb c ch_slash).
    + rewrite IH. unfold strbuf_addstr. simpl concat.
      now rewrite <- app_assoc.
    + apply IH.
Qed.

Lemma quote_bytes_spec (n : nat) :
  forall (in_ : list byte) (out : strbuf),
    (n <= length in_)%nat ->
    quote_bytes n in_ out = out ++ flat_map escape_byte (firstn n in_).
Proof.
  induction n as [| n IH]; intros in_ out Hn.
  - simpl. now rewrite app_nil_r.
  - destruct in_ as [| c rest]; [simpl in Hn; lia |].
    simpl in Hn. cbn [quote_bytes firstn flat_map].
    change (char_at (c :: rest) 0) with c.
    change (ptr_add (c :: rest) 1) with rest.
    rewrite IH by lia. unfold escape_byte, strbuf_addstr, strbuf_addch.
    destruct (Byte.eqb c ch_newline); [now rewrite <- app_assoc |].
    destruct (Byte.eqb c ch_return); now rewrite <- app_assoc.
Qed.

Lemma strlen_le_length (s : list byte) :
  0 <= strlen s <= Z.of_nat (length s).
Proof.
  induction s as [| c s IH]; [simpl; lia |].
  cbn [strlen length]. rewrite Nat2Z.inj_succ.
  destruct (Byte.eqb c ch_nul); lia.
Qed.

Lemma escape_byte_clean (c : byte) :
  ~ In ch_newline (escape_byte c) /\ ~ In ch_return (escape_byte c) /\
  escape_byte c <> [].
Proof.
  unfold escape_byte.
  destruct (byte_eqb_spec c ch_newline) as [E1 | E1].
  { vm_compute. repeat split; try discriminate; intuition discriminate. }
  destruct (byte_eqb_spec c ch_return) as [E2 | E2].
  { vm_compute. repeat split; try discriminate; intuition discriminate. }
  simpl. repeat split; try discriminate; intros [H | []]; congruence.
Qed.

Lemma escaped_clean (l : list byte) :
  ~ In ch_newline (flat_map escape_byte l) /\
  ~ In ch_return (flat_map escape_byte l).
Proof.
  induction l as [| c l [IH1 IH2]]; simpl; [tauto |].
  destruct (escape_byte_clean c) as (H1 & H2 & _).
  rewrite !in_app_iff. tauto.
Qed.

Lemma updirs_clean (n : nat) :
  ~ In ch_newline (concat (repeat str_updir n)) /\
  ~ In ch_return (concat (repeat str_updir n)).
Proof.
  induction n as [| n [IH1 IH2]]; simpl; [tauto |].
  split; intros [H | [H | [H | H]]];
    try discriminate H; tauto.
Qed.

(** The closing test of [quote_path]: "./" is appended exactly when neither
    a "../" step nor a byte of the path was written. *)
Lemma quote_path_closing (ups : nat) (rest : list byte) :
  let out := concat (repeat str_updir ups) ++ flat_map escape_byte rest in
  (if Z.of_nat (length out) =? 0 then strbuf_addstr out str_curdir else out)
  = (if (ups =? 0)%nat && (length rest =? 0)%nat then str_curdir else out)
  /\ (if (ups =? 0)%nat && (length rest =? 0)%nat then str_curdir else out)
     <> [].
Proof.
  destruct ups as [| ups].
  - destruct rest as [| c rest].
    + simpl. split; [reflexivity | discriminate].
    + cbn [repeat concat app flat_map Nat.eqb length andb].
      destruct (escape_byte_clean c) as (_ & _ & Hne).
      destruct (escape_byte c) as [| e es]; [contradiction |].
      split; [reflexivity | discriminate].
  - split; [reflexivity | discriminate].
Qed.

(** C9 (as stated) fails: relativising "a/" against the prefix "a/b/"
    consumes the whole input, and the result is "../", not "./". *)
Lemma quote_path_consumed_input_updir :
  let in_ := list_byte_of_string "a/" in
  let prefix := list_byte_of_string "a/b/" in
  strip_common_dirs prefix in_ 2 0 = (list_byte_of_string "b/", [], 0) /\
  quote_path in_ 2 [] (Some prefix) = list_byte_of_string "../" /\
  quote_path in_ 2 [] (Some prefix) <> list_byte_of_string "./".
Proof. vm_compute. repeat split; discriminate. Qed.

Lemma add_updirs_clean (p : list byte) :
  forall out : strbuf,
    ~ In ch_newline out /\ ~ In ch_return out ->
    ~ In ch_newline (add_updirs p out) /\ ~ In ch_return (add_updirs p out).
Proof.
  intros out Hout. rewrite add_updirs_spec, !in_app_iff.
  pose proof (updirs_clean (count_slashes p)). tauto.
Qed.

Lemma quote_bytes_clean (n : nat) :
  forall (in_ : list byte) (out : strbuf),
    ~ In ch_newline out /\ ~ In ch_return out ->
    ~ In ch_newline (quote_bytes n in_ out) /\
    ~ In ch_return (quote_bytes n in_ out).
Proof.
  induction n as [| n IH]; intros in_ out Hout; [exact Hout |].
  cbn [quote_bytes]. apply IH.
  pose proof (escape_byte_clean (char_at in_ 0)) as (H1 & H2 & _).
  unfold escape_byte in H1, H2. unfold strbuf_addstr, strbuf_addch.
  destruct (Byte.eqb (char_at in_ 0) ch_newline);
    [rewrite !in_app_iff; tauto |].
  destruct (Byte.eqb (char_at in_ 0) ch_return);
    rewrite !in_app_iff; tauto.
Qed.

Lemma skipn_cons_nth {A : Type} (d : A) (l : list A) :
  forall n : nat,
    (n < length l)%nat -> skipn n l = nth n l d :: skipn (S n) l.
Proof.
  induction l as [| a l IH]; intros [| n] H; simpl in H; try lia.
  - reflexivity.
  - cbn [skipn nth]. rewrite (IH n) by lia. reflexivity.
Qed.

(** The loop strips exactly the leading directories the prefix and the
    input have in common. *)
Lemma strip_common_dirs_common (prefix in_ : list byte) (len off : Z) :
  0 <= off ->
  strip_common_dirs prefix in_ len off
  = let k := common_dir_len (skipn (Z.to_nat off) prefix)
                            (skipn (Z.to_nat off) in_)
                            (Z.to_nat (len - off)) (Z.to_nat off) in
    (skipn k prefix, skipn k in_, len - Z.of_nat k).
Proof.
  funelim (strip_common_dirs prefix in_ len off); intros Hoff; cbv zeta.
  - (* the guard fails: nothing more is stripped *)
    assert (Hk : common_dir_len (skipn (Z.to_nat off) prefix0)
                   (skipn (Z.to_nat off) in_)
                   (Z.to_nat (len - off)) (Z.to_nat off) = 0%nat).
    { pose proof e as Hg. unfold common_dir_guard, char_at in Hg.
      assert (Hneg : (off <? 0) = false) by (apply Z.ltb_ge; lia).
      rewrite Hneg in Hg.
      destruct (Nat.lt_ge_cases (Z.to_nat off) (length prefix0)) as [Hp | Hp];
        [| rewrite (skipn_all2 prefix0) by lia; reflexivity].
      rewrite (skipn_cons_nth ch_nul prefix0) by exact Hp.
      destruct (Nat.lt_ge_cases (Z.to_nat off) (length in_)) as [Hi | Hi];
        [| rewrite (skipn_all2 in_) by lia; reflexivity].
      rewrite (skipn_cons_nth ch_nul in_) by exact Hi.
      destruct (Z.to_nat (len - off)) as [| a] eqn:Ha; [reflexivity |].
      assert (Hlt : (off <? len) = true) by (apply Z.ltb_lt; lia).
      rewrite Hlt, andb_true_r in Hg.
      cbn [common_dir_len]. rewrite Hg. reflexivity. }
    rewrite Hk. simpl. rewrite Z.sub_0_r. reflexivity.
  - destruct (common_dir_guard_true _ _ _ _ Hguard)
      as (Hlt & Hlp & Hli & Hnth).
    rewrite H by lia. cbv zeta. unfold ptr_add.
    assert (Hc : char_at prefix0 off = nth (Z.to_nat off) prefix0 ch_nul).
    { unfold char_at. destruct (Z.ltb_spec off 0); [lia | reflexivity]. }
    assert (Hnz : Byte.eqb (nth (Z.to_nat off) prefix0 ch_nul) ch_nul = false).
    { pose proof Hguard as Hg. unfold common_dir_guard in Hg.
      rewrite Hc in Hg.
      destruct (Byte.eqb (nth (Z.to_nat off) prefix0 ch_nul) ch_nul);
        [discriminate Hg | reflexivity]. }
    rewrite (skipn_cons_nth ch_nul prefix0 (Z.to_nat off)) by exact Hlp.
    rewrite (skipn_cons_nth ch_nul in_ (Z.to_nat off)) by exact Hli.
    replace (Z.to_nat (len - off)) with (S (Z.to_nat (len - (off + 1))))
      by lia.
    cbn [common_dir_len]. rewrite <- Hnth, Hnz. cbn [negb andb].
    destruct (byte_eqb_spec (nth (Z.to_nat off) prefix0 ch_nul)
                            (nth (Z.to_nat off) prefix0 ch_nul));
      [| contradiction].
    rewrite <- Hc, Heq.
    replace (Z.to_nat 0) with 0%nat by reflexivity. rewrite !skipn_O.
    replace (Z.to_nat (len - (off + 1) - 0))
      with (Z.to_nat (len - (off + 1))) by lia.
    replace (Z.to_nat (off + 1)) with (S (Z.to_nat off)) by lia.
    set (k' := common_dir_len (skipn (S (Z.to_nat off)) prefix0)
                 (skipn (S (Z.to_nat off)) in_)
                 (Z.to_nat (len - (off + 1))) 0).
    rewrite !skipn_skipn.
    replace (k' + S (Z.to_nat off))%nat with (S (Z.to_nat off) + k')%nat
      by lia.
    f_equal. lia.
  - destruct (common_dir_guard_true _ _ _ _ Hguard)
      as (Hlt & Hlp & Hli & Hnth).
    rewrite H by lia. cbv zeta.
    assert (Hc : char_at prefix0 off = nth (Z.to_nat off) prefix0 ch_nul).
    { unfold char_at. destruct (Z.ltb_spec off 0); [lia | reflexivity]. }
    assert (Hnz : Byte.eqb (nth (Z.to_nat off) prefix0 ch_nul) ch_nul = false).
    { pose proof Hguard as Hg. unfold common_dir_guard in Hg.
      rewrite Hc in Hg.
      destruct (Byte.eqb (nth (Z.to_nat off) prefix0 ch_nul) ch_nul);
        [discriminate Hg | reflexivity]. }
    rewrite (skipn_cons_nth ch_nul prefix0 (Z.to_nat off)) by exact Hlp.
    rewrite (skipn_cons_nth ch_nul in_ (Z.to_nat off)) by exact Hli.
    replace (Z.to_nat (len - off)) with (S (Z.to_nat (len - (off + 1))))
      by lia.
    cbn [common_dir_len]. rewrite <- Hnth, Hnz. cbn [negb andb].
    destruct (byte_eqb_spec (nth (Z.to_nat off) prefix0 ch_nul)
                            (nth (Z.to_nat off) prefix0 ch_nul));
      [| contradiction].
    rewrite <- Hc, Heq.
    replace (Z.to_nat (off + 1)) with (S (Z.to_nat off)) by lia.
    reflexivity.
Qed.

(** The result of [quote_path] in terms of the common leading directories. *)
Lemma quote_path_form
      (in_ : list byte) (len : Z) (out : strbuf) (pfx : option (list byte)) :
  len <= Z.of_nat (length in_) ->
  let n := Z.to_nat (if len <? 0 then strlen in_ else len) in
  let k := match pfx with
           | Some p => common_dir_len p in_ n 0
           | None => 0%nat
           end in
  let ups := match pfx with
             | Some p => count_slashes (skipn k p)
             | None => 0%nat
             end in
  let rest := firstn (n - k) (skipn k in_) in
  (k <= n)%nat /\
  (forall p, pfx = Some p ->
             firstn k p = firstn k in_ /\
             strip_common_dirs p in_ (Z.of_nat n) 0
             = (skipn k p, skipn k in_, Z.of_nat (n - k))) /\
  quote_path in_ len out pfx
  = if (ups =? 0)%nat && (length rest =? 0)%nat then str_curdir
    else concat (repeat str_updir ups) ++ flat_map escape_byte rest.
Proof.
  intros Hbuf n k ups rest.
  assert (Hn0 : 0 <= (if len <? 0 then strlen in_ else len)).
  { pose proof (strlen_le_length in_).
    destruct (Z.ltb_spec len 0); lia. }
  assert (Hn : (n <= length in_)%nat).
  { subst n. pose proof (strlen_le_length in_).
    destruct (len <? 0); lia. }
  assert (Hnz : Z.of_nat n = if len <? 0 then strlen in_ else len)
    by (subst n; lia).
  destruct pfx as [p |].
  - pose proof (strip_common_dirs_common p in_ (Z.of_nat n) 0 ltac:(lia))
      as Hcommon.
    cbv zeta in Hcommon. cbn [Z.to_nat skipn] in Hcommon.
    rewrite Z.sub_0_r, Nat2Z.id in Hcommon. fold k in Hcommon.
    destruct (strip_common_dirs_inv p in_ (Z.of_nat n) 0)
      as (k' & Hk' & Hres & Hfst & Hkp & Hki);
      [lia | simpl; lia | simpl; lia | reflexivity |].
    assert (Hkk : k' = k).
    { rewrite Hcommon in Hres. injection Hres as _ _ Hlen. lia. }
    subst k'.
    assert (Hkn : (k <= n)%nat) by lia.
    split; [exact Hkn |]. split.
    + intros p' Hp'. injection Hp' as <-. split; [exact Hfst |].
      rewrite Hcommon. f_equal. lia.
    + unfold quote_path. rewrite <- Hnz, Hcommon.
      rewrite add_updirs_spec, quote_bytes_spec
        by (rewrite length_skipn; lia).
      replace (Z.to_nat (Z.of_nat n - Z.of_nat k)) with (n - k)%nat by lia.
      apply (quote_path_closing ups).
  - subst k ups rest. split; [lia |]. split; [discriminate |].
    unfold quote_path. rewrite <- Hnz, Nat2Z.id.
    rewrite quote_bytes_spec by lia.
    rewrite Nat.sub_0_r. apply (quote_path_closing 0).
Qed.

(** C9 (amended): for every input, length and prefix, [quote_path] returns
    a non-empty string that holds no raw '\n' or '\r' byte.  When the
    buffer holds [len] bytes (or is a C string, for [len < 0]), the
    relativisation strips the [k] leading bytes that make up the leading
    directories shared with the prefix, and the result is one "../" for
    each '/' left in the prefix, followed by the remaining path in which
    every '\n' and '\r' byte is replaced by its two-character escape; it
    is "./" exactly in the case where the whole input was consumed and no
    '/' is left in the prefix. *)
Theorem quote_path_shape
  (in_ : list byte) (len : Z) (out : strbuf) (prefix : option (list byte)) :
  let n := Z.to_nat (if len <? 0 then strlen in_ else len) in
  let r := quote_path in_ len out prefix in
  let k := match prefix with
           | Some p => common_dir_len p in_ n 0
           | None => 0%nat
           end in
  let ups := match prefix with
             | Some p => count_slashes (skipn k p)
             | None => 0%nat
             end in
  let rest := firstn (n - k) (skipn k in_) in
  r <> [] /\ ~ In ch_newline r /\ ~ In ch_return r /\
  (len <= Z.of_nat (length in_) ->
   (k <= n)%nat /\
   (forall p, prefix = Some p ->
              firstn k p = firstn k in_ /\
              strip_common_dirs p in_ (Z.of_nat n) 0
              = (skipn k p, skipn k in_, Z.of_nat (n - k))) /\
   r = (if (ups =? 0)%nat && (length rest =? 0)%nat then str_curdir
        else concat (repeat str_updir ups) ++ flat_map escape_byte rest)).
Proof.
  intros n r k ups rest.
  assert (Hclosing : exists body : strbuf,
            (~ In ch_newline body /\ ~ In ch_return body) /\
            r = if Z.of_nat (length body) =? 0
                then strbuf_addstr body str_curdir else body).
  { subst r. unfold quote_path.
    set (n0 := if len <? 0 then strlen in_ else len).
    assert (Hnil : ~ In ch_newline (@nil byte) /\ ~ In ch_return (@nil byte))
      by (simpl; tauto).
    destruct prefix as [p |].
    - destruct (strip_common_dirs p in_ n0 0) as [[p' in'] len'].
      eexists. split; [| reflexivity].
      apply quote_bytes_clean, add_updirs_clean, Hnil.
    - eexists. split; [| reflexivity].
      apply quote_bytes_clean, Hnil. }
  destruct Hclosing as (body & Hbody & Hr).
  split; [| split; [| split]].
  - rewrite Hr. destruct (Z.eqb_spec (Z.of_nat (length body)) 0) as [E | E].
    + unfold strbuf_addstr. intros H. apply app_eq_nil in H as [_ H].
      discriminate H.
    + intros H. rewrite H in E. simpl in E. lia.
  - rewrite Hr. destruct (Z.of_nat (length body) =? 0); [| tauto].
    unfold strbuf_addstr. rewrite in_app_iff.
    intros [H | [H | [H | []]]]; try discriminate H. tauto.
  - rewrite Hr. destruct (Z.of_nat (length body) =? 0); [| tauto].
    unfold strbuf_addstr. rewrite in_app_iff.
    intros [H | [H | [H | []]]]; try discriminate H. tauto.
  - intros Hbuf. exact (quote_path_form in_ len out prefix Hbuf).
Qed.

Lemma quote_path_shape_witness :
  let in_ := [x61; x2f; x0a; x62] in
  let r := quote_path in_ 4 [] (Some (list_byte_of_string "a/c/")) in
  4 <= Z.of_nat (length in_) /\
  r <> [] /\ ~ In ch_newline r /\
  r = list_byte_of_string "../\nb".
Proof.
  intros in_ r.
  assert (Hbuf : 4 <= Z.of_nat (length in_)) by (simpl; lia).
  split; [exact Hbuf |].
  destruct (quote_path_shape in_ 4 [] (Some (list_byte_of_string "a/c/")))
    as (H1 & H2 & _ & H4).
  split; [exact H1 |]. split; [exact H2 |].
  destruct (H4 Hbuf) as (_ & _ & Hr). exact Hr.
Defined.

Example common_dir_len_samples :
  common_dir_len (list_byte_of_string "a/b/") (list_byte_of_string "a/") 2 0
  = 2%nat /\
  common_dir_len (list_byte_of_string "ab/c/") (list_byte_of_string "ab/d") 4 0
  = 3%nat /\
  common_dir_len (list_byte_of_string "abc") (list_byte_of_string "abd") 3 0
  = 0%nat.
Proof. repeat split. Qed.

Example quote_path_whole_prefix :
  quote_path (list_byte_of_string "a/") 2 []
             (Some (list_byte_of_string "a/"))
  = list_byte_of_string "./".
Proof. vm_compute. reflexivity. Qed.

Example quote_path_escapes :
  quote_path [x61; x2f; x0a; x62] 4 [] (Some (list_byte_of_string "a/c/"))
  = list_byte_of_string "../\nb".
Proof. vm_compute. reflexivity. Qed.

(** ** The order of the index *)

Lemma name_compare_eq (a : list byte) :
  forall b, name_compare a b = Eq <-> a = b.
Proof.
  induction a as [| x a IH]; intros [| y b]; simpl;
    try (split; [discriminate | discriminate]); [tauto |].
  destruct (Z.compare_spec (byte_val x) (byte_val y)) as [E | L | G].
  - apply byte_val_inj in E. subst y. rewrite IH.
    split; [intros -> | intros H; injection H]; auto.
  - split; [discriminate | intros H; injection H as -> _; exfalso; lia].
  - split; [discriminate | intros H; injection H as -> _; exfalso; lia].
Qed.

Lemma name_compare_antisym (a : list byte) :
  forall b, name_compare b a = CompOpp (name_compare a b).
Proof.
  induction a as [| x a IH]; intros [| y b]; simpl; try reflexivity.
  rewrite (Z.compare_antisym (byte_val x) (byte_val y)).
  destruct (byte_val x ?= byte_val y); simpl; auto.
Qed.

Lemma name_compare_trans (a : list byte) :
  forall b c,
    name_compare a b = Lt -> name_compare b c = Lt -> name_compare a c = Lt.
Proof.
  induction a as [| x a IH]; intros [| y b] [| z c]; simpl;
    try discriminate; try reflexivity.
  intros H1 H2.
  destruct (Z.compare_spec (byte_val x) (byte_val y)) as [E1 | L1 | G1];
    try discriminate;
    destruct (Z.compare_spec (byte_val y) (byte_val z)) as [E2 | L2 | G2];
    try discriminate;
    destruct (Z.compare_spec (byte_val x) (byte_val z)) as [E3 | L3 | G3];
    try (exfalso; lia); try reflexivity; eauto.
Qed.

Lemma cache_name_compare_eq (n1 : list byte) (s1 : Z) (n2 : list byte)
      (s2 : Z) :
  cache_name_compare n1 s1 n2 s2 = Eq <-> n1 = n2 /\ s1 = s2.
Proof.
  unfold cache_name_compare.
  destruct (name_compare n1 n2) eqn:E.
  - apply name_compare_eq in E. rewrite Z.compare_eq_iff. tauto.
  - split; [discriminate | intros [Hn _]].
    apply name_compare_eq in Hn. congruence.
  - split; [discriminate | intros [Hn _]].
    apply name_compare_eq in Hn. congruence.
Qed.

Lemma cache_name_compare_antisym (n1 : list byte) (s1 : Z) (n2 : list byte)
      (s2 : Z) :
  cache_name_compare n2 s2 n1 s1 = CompOpp (cache_name_compare n1 s1 n2 s2).
Proof.
  unfold cache_name_compare. rewrite (name_compare_antisym n1 n2).
  destruct (name_compare n1 n2); simpl; auto.
  apply Z.compare_antisym.
Qed.

Lemma cache_name_compare_trans (n1 : list byte) (s1 : Z) (n2 : list byte)
      (s2 : Z) (n3 : list byte) (s3 : Z) :
  cache_name_compare n1 s1 n2 s2 = Lt ->
  cache_name_compare n2 s2 n3 s3 = Lt ->
  cache_name_compare n1 s1 n3 s3 = Lt.
Proof.
  unfold cache_name_compare.
  destruct (name_compare n1 n2) eqn:E12; try discriminate;
    destruct (name_compare n2 n3) eqn:E23; try discriminate; intros H1 H2.
  - apply name_compare_eq in E12, E23. subst.
    rewrite (proj2 (name_compare_eq n3 n3) eq_refl).
    rewrite Z.compare_lt_iff in *. lia.
  - apply name_compare_eq in E12. subst. now rewrite E23.
  - apply name_compare_eq in E23. subst. now rewrite E12.
  - now rewrite (name_compare_trans _ _ _ E12 E23).
Qed.

(** Between two keys with the same name nothing but that name fits. *)
Lemma cache_name_compare_squeeze (n : list byte) (s1 : Z) (m : list byte)
      (t : Z) (s2 : Z) :
  cache_name_compare n s1 m t = Lt ->
  cache_name_compare m t n s2 = Lt ->
  m = n.
Proof.
  unfold cache_name_compare. rewrite (name_compare_antisym n m).
  destruct (name_compare n m) eqn:E; simpl; try discriminate.
  intros _ _. apply name_compare_eq in E. congruence.
Qed.

Lemma name_eqb_eq (a b : list byte) : name_eqb a b = true <-> a = b.
Proof.
  unfold name_eqb. rewrite <- name_compare_eq.
  destruct (name_compare a b); split; congruence.
Qed.

Lemma StronglySorted_middle {A : Type} (R : A -> A -> Prop) (l1 : list A) :
  forall (x : A) (l2 : list A),
    StronglySorted R (l1 ++ x :: l2) ->
    Forall (fun y => R y x) l1 /\ Forall (R x) l2.
Proof.
  induction l1 as [| a l1 IH]; intros x l2 H; simpl in H.
  - inversion H; subst. split; [constructor | assumption].
  - inversion H as [| ? ? Hs Hf]; subst.
    destruct (IH x l2 Hs) as [H1 H2].
    split; [| exact H2]. constructor; [| exact H1].
    rewrite Forall_forall in Hf. apply Hf.
    apply in_or_app. right. left. reflexivity.
Qed.

Lemma StronglySorted_insert {A : Type} (R : A -> A -> Prop) (l1 : list A) :
  forall (x : A) (l2 : list A),
    StronglySorted R (l1 ++ l2) ->
    Forall (fun y => R y x) l1 -> Forall (R x) l2 ->
    StronglySorted R (l1 ++ x :: l2).
Proof.
  induction l1 as [| a l1 IH]; intros x l2 Hs H1 H2; simpl in *.
  - constructor; assumption.
  - inversion Hs as [| ? ? Hs' Hf]; subst.
    inversion H1 as [| ? ? Ha H1']; subst.
    constructor; [apply IH; assumption |].
    rewrite Forall_forall in *. intros y Hy.
    apply in_app_or in Hy as [Hy | [Hy | Hy]].
    + apply Hf, in_or_app. now left.
    + now subst y.
    + apply Hf, in_or_app. now right.
Qed.

Lemma filter_all {A : Type} (f : A -> bool) (l : list A) :
  Forall (fun x => f x = true) l -> filter f l = l.
Proof.
  induction 1 as [| x l Hx _ IH]; simpl; [reflexivity |].
  now rewrite Hx, IH.
Qed.

Lemma filter_none {A : Type} (f : A -> bool) (l : list A) :
  Forall (fun x => f x = false) l -> filter f l = [].
Proof.
  induction 1 as [| x l Hx _ IH]; simpl; [reflexivity |].
  now rewrite Hx, IH.
Qed.

(** ** Lookup *)

Section IndexFacts.

Variable host : byte_order.

Lemma entry_lt_trans (a b c : cache_entry) :
  entry_lt host a b -> entry_lt host b c -> entry_lt host a c.
Proof. unfold entry_lt. apply cache_name_compare_trans. Qed.

Lemma index_sorted_strong (entries : list cache_entry) :
  index_sorted host entries -> StronglySorted (entry_lt host) entries.
Proof.
  apply Sorted_StronglySorted. intros a b c. apply entry_lt_trans.
Qed.

Lemma ce_stage_nonneg (ce : cache_entry) : 0 <= ce_stage host ce.
Proof.
  unfold ce_stage. apply Z.shiftr_nonneg. apply Z.land_nonneg.
  left. unfold CE_STAGEMASK. lia.
Qed.

Lemma sorts_before_gt (key : list byte) (ce : cache_entry) :
  key_cmp host key ce = Gt -> sorts_before host key ce = true.
Proof.
  unfold key_cmp, sorts_before. intros H.
  rewrite cache_name_compare_antisym, H. reflexivity.
Qed.

Lemma sorts_before_lt (key : list byte) (ce : cache_entry) :
  key_cmp host key ce = Lt -> sorts_before host key ce = false.
Proof.
  unfold key_cmp, sorts_before. intros H.
  rewrite cache_name_compare_antisym, H. reflexivity.
Qed.

Lemma sorted_from (entries : list cache_entry) (key : list byte)
      (mid : nat) (ce : cache_entry) :
  StronglySorted (entry_lt host) entries ->
  nth_error entries mid = Some ce ->
  key_cmp host key ce = Lt ->
  Forall (fun e => key_cmp host key e = Lt) (skipn mid entries).
Proof.
  intros Hs Hnth Hlt.
  apply nth_error_split in Hnth as (l1 & l2 & -> & <-).
  apply StronglySorted_middle in Hs as [_ Hafter].
  rewrite skipn_app, skipn_all, Nat.sub_diag. simpl.
  constructor; [exact Hlt |].
  apply Forall_impl with (2 := Hafter). intros e He.
  unfold key_cmp in *. eapply cache_name_compare_trans; eauto.
Qed.

Lemma sorted_upto (entries : list cache_entry) (key : list byte)
      (mid : nat) (ce : cache_entry) :
  StronglySorted (entry_lt host) entries ->
  nth_error entries mid = Some ce ->
  key_cmp host key ce = Gt ->
  Forall (fun e => key_cmp host key e = Gt) (firstn (S mid) entries).
Proof.
  intros Hs Hnth Hgt.
  apply nth_error_split in Hnth as (l1 & l2 & -> & <-).
  apply StronglySorted_middle in Hs as [Hbefore _].
  replace (S (length l1)) with (length l1 + 1)%nat by lia.
  rewrite firstn_app_2. simpl.
  apply Forall_app. split; [| constructor; [exact Hgt | constructor]].
  apply Forall_impl with (2 := Hbefore). intros e He.
  unfold key_cmp in *. unfold entry_lt in He.
  rewrite cache_name_compare_antisym in Hgt |- *.
  rewrite (cache_name_compare_trans _ _ _ _ _ _ He); [reflexivity |].
  destruct (cache_name_compare (name ce) (ce_stage host ce) key 0);
    simpl in Hgt; congruence.
Qed.

Lemma index_name_pos_between_spec
      (entries : list cache_entry) (key : list byte) (first last : Z) :
  StronglySorted (entry_lt host) entries ->
  0 <= first <= last -> last <= Z.of_nat (length entries) ->
  Forall (fun e => key_cmp host key e = Gt) (firstn (Z.to_nat first) entries) ->
  Forall (fun e => key_cmp host key e = Lt) (skipn (Z.to_nat last) entries) ->
  lookup_result host entries key
    (index_name_pos_between host entries key first last).
Proof.
  funelim (index_name_pos_between host entries key first last);
    intros Hs Hfl Hlast Hlow Hhigh.
  all: try (pose proof (proj1 (Z.ltb_lt _ _) Hlt);
            pose proof (Z.div_mod (first + last) 2 ltac:(lia));
            pose proof (Z.mod_pos_bound (first + last) 2 ltac:(lia))).
  - (* first >= last: nothing left to search *)
    pose proof (proj1 (Z.ltb_ge _ _) e). assert (first = last) by lia.
    subst last.
    right. exists (Z.to_nat first). repeat split; auto; lia.
  - (* the middle position lies inside the vector *)
    apply nth_error_None in Heq. lia.
  - (* found *)
    left. split; [lia |]. exists ce. split; [exact Heq0 |].
    apply cache_name_compare_eq in Heq as [Hn Hst]. auto.
  - (* the key sorts before the middle entry *)
    apply H; auto; try lia.
    eapply sorted_from; eauto.
  - (* the key sorts after the middle entry *)
    apply H; auto; try lia.
    replace (Z.to_nat ((first + last) / 2 + 1))
      with (S (Z.to_nat ((first + last) / 2))) by lia.
    eapply sorted_upto; eauto.
Qed.

Lemma index_name_pos_spec (istate : index_state) (key : list byte) :
  index_sorted host (cache istate) ->
  lookup_result host (cache istate) key
    (index_name_pos host istate key (Z.of_nat (length key))).
Proof.
  intros Hs. unfold index_name_pos, cache_nr.
  rewrite Nat2Z.id, firstn_all.
  apply index_name_pos_between_spec.
  - now apply index_sorted_strong.
  - lia.
  - lia.
  - constructor.
  - rewrite Nat2Z.id, skipn_all. constructor.
Qed.

Lemma insertion_point_split (entries : list cache_entry) (key : list byte)
      (p : nat) :
  (p <= length entries)%nat ->
  Forall (fun e => key_cmp host key e = Gt) (firstn p entries) ->
  Forall (fun e => key_cmp host key e = Lt) (skipn p entries) ->
  insertion_point host entries key = p.
Proof.
  intros Hp Hlow Hhigh. unfold insertion_point.
  rewrite <- (firstn_skipn p entries) at 1.
  rewrite filter_app, filter_all, filter_none, app_nil_r.
  - rewrite length_firstn. lia.
  - apply Forall_impl with (2 := Hhigh). apply sorts_before_lt.
  - apply Forall_impl with (2 := Hlow). apply sorts_before_gt.
Qed.

(** A lookup result that is a complement means the key is at stage 0
    nowhere in the index; one that is a position means it is. *)
Lemma lookup_result_absent (entries : list cache_entry) (key : list byte)
      (p : nat) (ce : cache_entry) :
  Forall (fun e => key_cmp host key e = Gt) (firstn p entries) ->
  Forall (fun e => key_cmp host key e = Lt) (skipn p entries) ->
  In ce entries -> name ce = key -> ce_stage host ce <> 0.
Proof.
  intros Hlow Hhigh Hin Hname Hstage.
  assert (Heq : key_cmp host key ce = Eq).
  { unfold key_cmp. apply cache_name_compare_eq. auto. }
  rewrite <- (firstn_skipn p entries) in Hin.
  rewrite Forall_forall in Hlow, Hhigh.
  apply in_app_or in Hin as [Hin | Hin].
  - apply Hlow in Hin. congruence.
  - apply Hhigh in Hin. congruence.
Qed.

Lemma insert_at_sorted (entries : list cache_entry) (key : list byte)
      (p : nat) (new : cache_entry) :
  index_sorted host entries ->
  Forall (fun e => key_cmp host key e = Gt) (firstn p entries) ->
  Forall (fun e => key_cmp host key e = Lt) (skipn p entries) ->
  name new = key -> ce_stage host new = 0 ->
  index_sorted host (insert_at p new entries).
Proof.
  intros Hs Hlow Hhigh Hname Hstage. unfold index_sorted, insert_at.
  apply StronglySorted_Sorted, StronglySorted_insert.
  - rewrite firstn_skipn. now apply index_sorted_strong.
  - apply Forall_impl with (2 := Hlow). intros e He.
    unfold entry_lt. rewrite Hname, Hstage.
    unfold key_cmp in He. rewrite cache_name_compare_antisym, He.
    reflexivity.
  - apply Forall_impl with (2 := Hhigh). intros e He.
    unfold entry_lt. rewrite Hname, Hstage. exact He.
Qed.

End IndexFacts.

(** C6: in a sorted index, looking up a name that is present at stage 0
    returns a non-negative position, and the entry at that position bears
    the name (at stage 0); looking up a name absent at stage 0 returns the
    bitwise complement, equally [-(p) - 1], of the insertion point [p], the
    number of entries sorting before the name, and an entry with that name
    placed at [p] leaves the index sorted. *)
Theorem index_name_pos_lookup
  (host : byte_order) (istate : index_state) (key : list byte)
  (Hsorted : index_sorted host (cache istate)) :
  let pos := index_name_pos host istate key (Z.of_nat (length key)) in
  let p := insertion_point host (cache istate) key in
  ((exists ce, In ce (cache istate) /\ name ce = key /\ ce_stage host ce = 0)
   -> 0 <= pos < cache_nr istate /\
      exists ce, nth_error (cache istate) (Z.to_nat pos) = Some ce /\
                 name ce = key /\ ce_stage host ce = 0) /\
  ((forall ce, In ce (cache istate) -> name ce = key -> ce_stage host ce <> 0)
   -> pos = Z.lnot (Z.of_nat p) /\ pos = - Z.of_nat p - 1 /\
      (p <= length (cache istate))%nat /\
      forall new : cache_entry,
        name new = key -> ce_stage host new = 0 ->
        index_sorted host (insert_at p new (cache istate))).
Proof.
  intros pos p.
  pose proof (index_name_pos_spec host istate key Hsorted) as Hres.
  fold pos in Hres. split.
  - intros (ce & Hin & Hname & Hstage).
    destruct Hres as [Hfound | (q & _ & _ & Hlow & Hhigh)].
    + exact Hfound.
    + exfalso.
      exact (lookup_result_absent host _ _ _ _ Hlow Hhigh Hin Hname Hstage).
  - intros Habsent.
    destruct Hres as [(_ & ce & Hnth & Hname & Hstage)
                     | (q & Hpos & Hq & Hlow & Hhigh)].
    + exfalso. apply nth_error_In in Hnth.
      exact (Habsent ce Hnth Hname Hstage).
    + assert (Hp : p = q)
        by (apply insertion_point_split; assumption).
      rewrite Hp. unfold Z.lnot.
      repeat split; try lia.
      intros new Hname Hstage.
      eapply insert_at_sorted; eauto.
Qed.

Lemma index_name_pos_lookup_witness :
  let istate := sample_index LittleEndian in
  let key := list_byte_of_string "c" in
  index_sorted LittleEndian (cache istate) /\
  index_name_pos LittleEndian istate key 1 = Z.lnot 4 /\
  index_name_pos LittleEndian istate key 1 = - 4 - 1.
Proof.
  intros istate key.
  assert (Hs : index_sorted LittleEndian (cache istate)).
  { repeat constructor. }
  split; [exact Hs |].
  destruct (index_name_pos_lookup LittleEndian istate key Hs) as [_ H].
  destruct H as (Hpos & Hneg & _); [| split; [exact Hpos | exact Hneg]].
  intros ce Hin Hname.
  repeat (destruct Hin as [<- | Hin]; [discriminate Hname |]).
  destruct Hin.
Defined.

Example index_name_pos_found :
  index_name_pos BigEndian (sample_index BigEndian)
    (list_byte_of_string "b/c") 3 = 3.
Proof. vm_compute. reflexivity. Qed.

Example index_name_pos_conflicted :
  index_name_pos BigEndian (sample_index BigEndian)
    (list_byte_of_string "b") 1 = Z.lnot 1.
Proof. vm_compute. reflexivity. Qed.

(** ** The untracked listing *)

Section UntrackedFacts.

Variable host : byte_order.

Lemma tracked_iff (istate : index_state) (ent : dir_entry) :
  tracked istate ent = true <->
  exists ce, In ce (cache istate) /\ name ce = ent_name ent.
Proof.
  unfold tracked. rewrite existsb_exists.
  split; intros (ce & Hin & H); exists ce; split; auto;
    now apply name_eqb_eq.
Qed.

Lemma tracked_at_stage0_iff (istate : index_state) (ent : dir_entry) :
  tracked_at_stage0 host istate ent = true <->
  exists ce, In ce (cache istate) /\ name ce = ent_name ent /\
             ce_stage host ce = 0.
Proof.
  unfold tracked_at_stage0. rewrite existsb_exists.
  split.
  - intros (ce & Hin & H). apply andb_prop in H as [Hn Hs].
    exists ce. rewrite name_eqb_eq in Hn. rewrite Z.eqb_eq in Hs. auto.
  - intros (ce & Hin & Hn & Hs). exists ce. split; [exact Hin |].
    apply andb_true_intro. rewrite name_eqb_eq, Z.eqb_eq. auto.
Qed.

(** The length test followed by [memcmp] decides equality of names. *)
Lemma same_name_test (ce : cache_entry) (ent : dir_entry) :
  namelen_recorded host ce -> dir_entry_ok ent ->
  (ce_namelen host ce =? ent_len ent)
  && (memcmp (name ce) (ent_name ent) (Z.to_nat (ent_len ent)) =? 0)
  = name_eqb (name ce) (ent_name ent).
Proof.
  unfold namelen_recorded, dir_entry_ok. intros Hce Hent.
  rewrite Hce, Hent, Nat2Z.id.
  destruct (Z.eqb_spec (Z.of_nat (length (name ce)))
                       (Z.of_nat (length (ent_name ent)))) as [E | E];
    cbn [andb].
  - apply Nat2Z.inj in E.
    pose proof (memcmp_zero_iff (length (ent_name ent)) (name ce)
                  (ent_name ent) ltac:(lia) ltac:(lia)) as Hm.
    rewrite <- E in Hm at 2. rewrite !firstn_all in Hm.
    rewrite <- name_eqb_eq in Hm.
    destruct (Z.eqb_spec (memcmp (name ce) (ent_name ent)
                            (length (ent_name ent))) 0) as [Z0 | Z0];
      destruct (name_eqb (name ce) (ent_name ent)); intuition congruence.
  - destruct (name_eqb (name ce) (ent_name ent)) eqn:N; [| reflexivity].
    apply name_eqb_eq in N. rewrite N in E. contradiction.
Qed.

(** An entry the key sorts after does not bear the key's name: stage 0 is
    the lowest stage. *)
Lemma key_after_other_name (key : list byte) (ce : cache_entry) :
  key_cmp host key ce = Gt -> name ce <> key.
Proof.
  unfold key_cmp, cache_name_compare. intros H Hname. subst key.
  rewrite (proj2 (name_compare_eq _ _) eq_refl) in H.
  apply Z.compare_gt_iff in H. pose proof (ce_stage_nonneg host ce). lia.
Qed.

Lemma StronglySorted_suffix {A : Type} (R : A -> A -> Prop) (l1 l2 : list A) :
  StronglySorted R (l1 ++ l2) -> StronglySorted R l2.
Proof.
  induction l1 as [| a l1 IH]; simpl; [auto |].
  intros H. inversion H; auto.
Qed.

Lemma skipn_nth_error {A : Type} (l : list A) :
  forall (p : nat) (x : A),
    nth_error l p = Some x -> skipn p l = x :: skipn (S p) l.
Proof.
  induction l as [| a l IH]; intros [| p] x H; simpl in *;
    try discriminate.
  - now injection H as ->.
  - now apply IH.
Qed.

(** The entry found at the insertion point decides whether the name is in
    the index at all. *)
Lemma tracked_at_insertion_point
      (istate : index_state) (ent : dir_entry) (p : nat) :
  index_sorted host (cache istate) ->
  Forall (fun e => key_cmp host (ent_name ent) e = Gt)
         (firstn p (cache istate)) ->
  Forall (fun e => key_cmp host (ent_name ent) e = Lt)
         (skipn p (cache istate)) ->
  tracked istate ent =
    match nth_error (cache istate) p with
    | Some ce => name_eqb (name ce) (ent_name ent)
    | None => false
    end.
Proof.
  intros Hs Hlow Hhigh.
  apply index_sorted_strong in Hs.
  rewrite <- (firstn_skipn p (cache istate)) in Hs.
  apply StronglySorted_suffix in Hs.
  assert (Hnot_low : forall ce, In ce (firstn p (cache istate)) ->
                                name ce <> ent_name ent).
  { intros ce Hin. rewrite Forall_forall in Hlow.
    apply key_after_other_name, Hlow, Hin. }
  destruct (nth_error (cache istate) p) as [ce |] eqn:Hnth.
  - pose proof (skipn_nth_error _ _ _ Hnth) as Hskip.
    destruct (name_eqb (name ce) (ent_name ent)) eqn:Hname.
    + apply tracked_iff. exists ce. split; [| now apply name_eqb_eq].
      eapply nth_error_In; eauto.
    + apply not_true_is_false. rewrite tracked_iff.
      intros (ce' & Hin & Hname').
      rewrite <- (firstn_skipn p (cache istate)) in Hin.
      apply in_app_or in Hin as [Hin | Hin];
        [exact (Hnot_low ce' Hin Hname') |].
      rewrite Hskip in Hin, Hs, Hhigh.
      inversion Hs as [| ? ? _ Hafter]; subst.
      inversion Hhigh as [| ? ? Hce _]; subst.
      destruct Hin as [-> | Hin].
      * apply name_eqb_eq in Hname'. congruence.
      * rewrite Forall_forall in Hafter. specialize (Hafter ce' Hin).
        unfold entry_lt in Hafter. rewrite Hname' in Hafter.
        unfold key_cmp in Hce.
        pose proof (cache_name_compare_squeeze _ _ _ _ _ Hce Hafter) as E.
        apply name_eqb_eq in E. congruence.
  - apply not_true_is_false. rewrite tracked_iff.
    intros (ce' & Hin & Hname').
    apply nth_error_None in Hnth.
    rewrite <- (firstn_all2 (n := p) (cache istate)) in Hin by exact Hnth.
    exact (Hnot_low ce' Hin Hname').
Qed.

(** The three ways the loop body treats a scanned entry. *)
Lemma untracked_entry_action_classified
      (istate : index_state) (ent : dir_entry) :
  index_sorted host (cache istate) ->
  Forall (namelen_recorded host) (cache istate) ->
  dir_entry_ok ent ->
  untracked_entry_action host istate ent =
    if tracked_at_stage0 host istate ent then ActionDie
    else if tracked istate ent then ActionContinue
    else ActionShow.
Proof.
  intros Hs Hrec Hent.
  pose proof (index_name_pos_spec host istate (ent_name ent) Hs) as Hres.
  unfold untracked_entry_action, cache_name_pos. rewrite Hent.
  set (pos := index_name_pos host istate (ent_name ent) _) in *.
  destruct (tracked_at_stage0 host istate ent) eqn:H0.
  - apply tracked_at_stage0_iff in H0 as (ce & Hin & Hname & Hstage).
    destruct Hres as [[Hpos _] | (q & _ & _ & Hlow & Hhigh)].
    + destruct (Z.leb_spec 0 pos); [reflexivity | lia].
    + exfalso.
      exact (lookup_result_absent host _ _ _ _ Hlow Hhigh Hin Hname Hstage).
  - destruct Hres as [(_ & ce & Hnth & Hname & Hstage)
                     | (q & Hpos & Hq & Hlow & Hhigh)].
    + exfalso. apply not_true_iff_false in H0. apply H0.
      apply tracked_at_stage0_iff. exists ce.
      split; [eapply nth_error_In; eauto | auto].
    + destruct (Z.leb_spec 0 pos); [lia |].
      replace (- pos - 1) with (Z.of_nat q) by lia. rewrite Nat2Z.id.
      rewrite (tracked_at_insertion_point istate ent q Hs Hlow Hhigh).
      unfold cache_nr.
      destruct (nth_error (cache istate) q) as [ce |] eqn:Hnth.
      * assert ((q < length (cache istate))%nat)
          by (apply nth_error_Some; congruence).
        destruct (Z.ltb_spec (Z.of_nat q)
                             (Z.of_nat (length (cache istate)))); [| lia].
        rewrite <- Hent. rewrite same_name_test; [| | exact Hent].
        -- destruct (name_eqb (name ce) (ent_name ent)); reflexivity.
        -- rewrite Forall_forall in Hrec. apply Hrec.
           eapply nth_error_In; eauto.
      * destruct (Z.of_nat q <? Z.of_nat (length (cache istate)));
          reflexivity.
Qed.

End UntrackedFacts.

Lemma print_untracked_loop_spec (host : byte_order) (istate : index_state) :
  index_sorted host (cache istate) ->
  Forall (namelen_recorded host) (cache istate) ->
  forall (entries : list dir_entry) (s : wt_status) (shown : bool)
         (buf : strbuf) (printed : list status_line),
    Forall dir_entry_ok entries ->
    match print_untracked_loop host istate entries s shown buf printed with
    | Died _ => existsb (tracked_at_stage0 host istate) entries = true
    | Returned s' out =>
        existsb (tracked_at_stage0 host istate) entries = false /\
        out = printed ++
              untracked_lines s shown
                (filter (fun ent => negb (tracked istate ent)) entries)
    end.
Proof.
  intros Hs Hrec.
  induction entries as [| ent rest IH]; intros s shown buf printed Hents.
  - simpl. split; [reflexivity |].
    unfold untracked_lines. simpl. rewrite orb_true_r.
    now rewrite app_nil_r.
  - inversion Hents as [| ? ? Hent Hrest]; subst.
    cbn [print_untracked_loop existsb filter].
    rewrite (untracked_entry_action_classified host istate ent Hs Hrec Hent).
    destruct (tracked_at_stage0 host istate ent); [reflexivity |].
    cbn [orb].
    destruct (tracked istate ent); cbn [negb].
    + apply IH. exact Hrest.
    + cbv zeta.
      match goal with
      | |- context [print_untracked_loop host istate rest ?s' true ?b ?pr] =>
          specialize (IH s' true b pr Hrest);
          assert (Hprefix : prefix s' = prefix s)
            by (destruct shown; reflexivity);
          destruct (print_untracked_loop host istate rest s' true b pr);
          [exact IH |]
      end.
      destruct IH as [Hnone Hout]. split; [exact Hnone |].
      rewrite Hout. unfold untracked_lines. rewrite Hprefix.
      cbn [orb length Nat.eqb map app].
      change (quote_path (ent_name ent) (ent_len ent) buf)
        with (quote_path (ent_name ent) (ent_len ent) []).
      destruct shown; cbn [orb app]; rewrite <- !app_assoc; reflexivity.
Qed.

(** C10 (amended): over a sorted index whose entries record the length of
    their names, a scanned path found in the index at stage 0 makes
    [wt_status_print_untracked] die on its bug assertion; a path present
    only at conflict stages is passed over; a path is listed exactly when
    no index entry bears its name at any stage.  A run that returns has
    printed the header once and the quoted paths of exactly those scanned
    entries, in scan order. *)
Theorem wt_status_print_untracked_listing
  (host : byte_order) (istate : index_state) (entries : list dir_entry)
  (s : wt_status)
  (Hsorted : index_sorted host (cache istate))
  (Hrecorded : Forall (namelen_recorded host) (cache istate))
  (Hentries : Forall dir_entry_ok entries) :
  (forall ent : dir_entry,
     In ent entries ->
     let action := untracked_entry_action host istate ent in
     ((exists ce, In ce (cache istate) /\ name ce = ent_name ent /\
                  ce_stage host ce = 0) -> action = ActionDie) /\
     ((exists ce, In ce (cache istate) /\ name ce = ent_name ent) ->
      (forall ce, In ce (cache istate) -> name ce = ent_name ent ->
                  ce_stage host ce <> 0) -> action = ActionContinue) /\
     (action = ActionShow <->
      forall ce, In ce (cache istate) -> name ce <> ent_name ent)) /\
  match wt_status_print_untracked host istate entries s with
  | Died _ =>
      exists ent ce, In ent entries /\ In ce (cache istate) /\
                     name ce = ent_name ent /\ ce_stage host ce = 0
  | Returned _ printed =>
      (forall ent ce, In ent entries -> In ce (cache istate) ->
                      name ce = ent_name ent -> ce_stage host ce <> 0) /\
      printed = untracked_lines s false
                  (filter (fun ent => negb (tracked istate ent)) entries)
  end.
Proof.
  split.
  - intros ent Hin action. subst action.
    rewrite Forall_forall in Hentries.
    rewrite (untracked_entry_action_classified host istate ent
               Hsorted Hrecorded (Hentries ent Hin)).
    pose proof (tracked_at_stage0_iff host istate ent) as H0.
    pose proof (tracked_iff istate ent) as Ht.
    destruct (tracked_at_stage0 host istate ent) eqn:E0.
    + destruct (proj1 H0 eq_refl) as (ce & Hce & Hname & Hstage).
      split; [reflexivity |]. split.
      * intros _ Habs. exfalso. exact (Habs ce Hce Hname Hstage).
      * split; [discriminate |]. intros Hnone. exfalso.
        exact (Hnone ce Hce Hname).
    + split.
      { intros Hex. apply H0 in Hex. discriminate Hex. }
      destruct (tracked istate ent) eqn:Et.
      * split; [reflexivity |]. split; [discriminate |].
        intros Hnone. destruct (proj1 Ht eq_refl) as (ce & Hce & Hname).
        exfalso. exact (Hnone ce Hce Hname).
      * split.
        { intros Hex. apply Ht in Hex. discriminate Hex. }
        split; [| reflexivity]. intros _ ce Hce Hname.
        assert (Hcontra : false = true) by (apply Ht; eauto).
        discriminate Hcontra.
  - unfold wt_status_print_untracked.
    pose proof (print_untracked_loop_spec host istate Hsorted Hrecorded
                  entries s false [] [] Hentries) as Hloop.
    destruct (print_untracked_loop host istate entries s false [] []).
    + apply existsb_exists in Hloop as (ent & Hin & H0).
      apply tracked_at_stage0_iff in H0 as (ce & Hce & Hname & Hstage).
      exists ent, ce. auto.
    + destruct Hloop as [Hnone Hout]. split; [| exact Hout].
      intros ent ce Hin Hce Hname Hstage.
      apply not_true_iff_false in Hnone. apply Hnone.
      apply existsb_exists. exists ent. split; [exact Hin |].
      apply tracked_at_stage0_iff. eauto.
Qed.

Lemma wt_status_print_untracked_listing_witness :
  let istate := sample_index LittleEndian in
  let entries := map sample_dir_entry ["b"; "c"; "e/f"]%string in
  let s := {| prefix := Some (list_byte_of_string "e/");
              untracked := 0; workdir_untracked := 0 |} in
  index_sorted LittleEndian (cache istate) /\
  Forall (namelen_recorded LittleEndian) (cache istate) /\
  Forall dir_entry_ok entries /\
  match wt_status_print_untracked LittleEndian istate entries s with
  | Died _ => False
  | Returned _ printed =>
      printed = [ UntrackedHeader;
                  UntrackedPath (list_byte_of_string "../c");
                  UntrackedPath (list_byte_of_string "f") ]
  end.
Proof.
  intros istate entries s.
  assert (Hs : index_sorted LittleEndian (cache istate))
    by (repeat constructor).
  assert (Hr : Forall (namelen_recorded LittleEndian) (cache istate))
    by (repeat constructor).
  assert (He : Forall dir_entry_ok entries) by (repeat constructor).
  split; [exact Hs |]. split; [exact Hr |]. split; [exact He |].
  pose proof (wt_status_print_untracked_listing
                LittleEndian istate entries s Hs Hr He) as [_ H].
  destruct (wt_status_print_untracked LittleEndian istate entries s)
    as [printed | s' printed] eqn:E.
  - vm_compute in E. discriminate E.
  - destruct H as [_ H]. rewrite H. vm_compute. reflexivity.
Defined.

(** C10 (as stated) fails: a name of 0x1000 bytes cannot be recorded in
    the flags ([create_ce_flags] keeps the low twelve bits of the length),
    so [ce_namelen] is 0 for the index entry that bears it and the
    same-name test of the loop fails: the path is listed as untracked
    although the index holds an entry of exactly that name, at stage 1. *)
Lemma wt_status_print_untracked_lists_long_name :
  let path := repeat x61 4096 in
  let ce := blank_entry (htonl LittleEndian REG_0644)
                        (create_ce_flags LittleEndian 4096 1) path in
  let istate := {| cache := [ce]; cache_changed := 0; timestamp := 0 |} in
  let ent := {| ent_len := 4096; ent_name := path |} in
  let s := {| prefix := None; untracked := 0; workdir_untracked := 0 |} in
  index_sorted LittleEndian (cache istate) /\
  dir_entry_ok ent /\
  In ce (cache istate) /\ name ce = ent_name ent /\
  ce_stage LittleEndian ce = 1 /\
  ce_namelen LittleEndian ce = 0 /\
  ~ (forall ce', In ce' (cache istate) -> name ce' <> ent_name ent) /\
  untracked_entry_action LittleEndian istate ent = ActionShow /\
  wt_status_print_untracked LittleEndian istate [ent] s
  = Returned {| prefix := None; untracked := 0; workdir_untracked := 1 |}
             [UntrackedHeader; UntrackedPath path].
Proof.
  intros path ce istate ent s.
  split; [repeat constructor |].
  split; [vm_compute; reflexivity |].
  split; [left; reflexivity |].
  split; [reflexivity |].
  split; [vm_compute; reflexivity |].
  split; [vm_compute; reflexivity |].
  split; [intros H; exact (H ce (or_introl eq_refl) eq_refl) |].
  split; vm_compute; reflexivity.
Qed.

Example print_untracked_dies_on_tracked_path :
  wt_status_print_untracked BigEndian (sample_index BigEndian)
    (map sample_dir_entry ["c"; "d"; "e"]%string)
    {| prefix := None; untracked := 0; workdir_untracked := 0 |}
  = Died [UntrackedHeader; UntrackedPath (list_byte_of_string "c")].
Proof. vm_compute. reflexivity. Qed.

(* ===================================================================== *)
(** * Part III: further properties of the code                            *)
(* ===================================================================== *)

(** ** Mode canonicalisation *)

(** X1: [canon_mode] is idempotent, and it keeps what the raw mode says of
    the file: regular, symlink or directory, the owner-executable bit of a
    regular file, and the kind of object ([object_type]) of every regular,
    symlink, directory or gitlink mode; any other mode comes out as a
    gitlink, hence as a commit. *)
Theorem canon_mode_idempotent (mode : Z) :
  canon_mode (canon_mode mode) = canon_mode mode /\
  S_ISREG (canon_mode mode) = S_ISREG mode /\
  S_ISLNK (canon_mode mode) = S_ISLNK mode /\
  S_ISDIR (canon_mode mode) = S_ISDIR mode /\
  (if S_ISREG mode
   then ce_permissions (canon_mode mode) = ce_permissions mode
   else True) /\
  (if S_ISREG mode || S_ISLNK mode || S_ISDIR mode || S_ISGITLINK mode
   then object_type (canon_mode mode) = object_type mode
   else object_type (canon_mode mode) = OBJ_COMMIT).
Proof.
  unfold canon_mode, object_type, ce_permissions.
  destruct (Z.land mode (octal 100) =? 0); cbn [negb];
    file_type_cases mode; repeat split; reflexivity.
Qed.

(** X2: read back in host order, [create_ce_mode] gives a gitlink for a
    directory, [canon_mode] for a regular file, a symlink or a gitlink, and
    a regular file with the permissions of the raw mode for anything else;
    canonicalising the mode read back from an entry changes nothing. *)
Theorem create_ce_mode_canon (host : byte_order) (mode : Z) :
  ntohl host (create_ce_mode host mode)
    = (if S_ISDIR mode then S_IFGITLINK
       else if S_ISREG mode || S_ISLNK mode || S_ISGITLINK mode
       then canon_mode mode
       else Z.lor S_IFREG (ce_permissions mode)) /\
  create_ce_mode host (ntohl host (create_ce_mode host mode))
    = create_ce_mode host mode.
Proof.
  split.
  - unfold create_ce_mode, canon_mode, ce_permissions.
    destruct (Z.land mode (octal 100) =? 0); cbn [negb];
      file_type_cases mode; destruct host; reflexivity.
  - destruct (ntohl_htonl_modes host) as (H1 & H2 & H3 & H4).
    destruct (create_ce_mode_cases host mode) as [H | [H | [H | H]]];
      rewrite H, ?H1, ?H2, ?H3, ?H4; reflexivity.
Qed.

Lemma create_ce_mode_index_mode (host : byte_order) (mode : Z) :
  index_mode (ntohl host (create_ce_mode host mode)).
Proof.
  destruct (ntohl_htonl_modes host) as (H1 & H2 & H3 & H4).
  unfold index_mode.
  destruct (create_ce_mode_cases host mode) as [H | [H | [H | H]]];
    rewrite H; tauto.
Qed.

(** X3: [ce_mode_from_stat] keeps the index canonical: when there is no
    existing entry, or the existing entry holds one of the four index
    modes, the mode it returns is one of the four index modes, whatever the
    stat mode and the two configuration variables are. *)
Theorem ce_mode_from_stat_canonical
  (host : byte_order) (trust_executable_bit has_symlinks : Z)
  (ce : option cache_entry) (mode : Z)
  (Hce : forall e, ce = Some e -> index_mode (ntohl host (ce_mode e))) :
  index_mode
    (ntohl host
       (ce_mode_from_stat host trust_executable_bit has_symlinks ce mode)).
Proof.
  unfold ce_mode_from_stat.
  destruct ce as [e |].
  - specialize (Hce e eq_refl).
    destruct ((has_symlinks =? 0) && S_ISREG mode
              && S_ISLNK (ntohl host (ce_mode e))); [exact Hce |].
    destruct ((trust_executable_bit =? 0) && S_ISREG mode).
    + destruct (S_ISREG (ntohl host (ce_mode e)));
        [exact Hce | apply create_ce_mode_index_mode].
    + apply create_ce_mode_index_mode.
  - destruct ((trust_executable_bit =? 0) && S_ISREG mode);
      apply create_ce_mode_index_mode.
Qed.

Lemma ce_mode_from_stat_canonical_witness :
  let e := blank_entry (htonl LittleEndian REG_0755) 0 [] in
  index_mode (ntohl LittleEndian (ce_mode e)) /\
  index_mode
    (ntohl LittleEndian
       (ce_mode_from_stat LittleEndian 0 0 (Some e) (octal 100644))).
Proof.
  intros e.
  assert (He : index_mode (ntohl LittleEndian (ce_mode e)))
    by (right; left; reflexivity).
  split; [exact He |].
  apply (ce_mode_from_stat_canonical LittleEndian 0 0 (Some e)).
  intros e' Heq. injection Heq as <-. exact He.
Defined.

(** ** Flag fields *)

Lemma stage_bits (y : Z) :
  Z.shiftr (Z.land CE_STAGEMASK y) CE_STAGESHIFT = Z.shiftr y 12 mod 4.
Proof.
  unfold CE_STAGEMASK, CE_STAGESHIFT.
  change 0x3000 with (Z.shiftl (Z.ones 2) 12). change 4 with (2 ^ 2).
  apply Z.bits_inj'. intros i Hi.
  rewrite Z.shiftr_spec, Z.land_spec, Z.shiftl_spec by lia.
  rewrite Z.testbit_mod_pow2, Z.shiftr_spec by lia.
  replace (i + 12 - 12) with i by lia.
  rewrite Z.testbit_ones_nonneg by lia. reflexivity.
Qed.

Lemma ce_namelen_range (host : byte_order) (ce : cache_entry) :
  0 <= ce_namelen host ce <= 0xFFF.
Proof.
  unfold ce_namelen, CE_NAMEMASK.
  set (y := ntohs host (ce_flags ce)).
  assert (E : Z.land 0x0fff y = y mod 4096).
  { change 0x0fff with (Z.ones 12).
    rewrite Z.land_comm, Z.land_ones by lia. reflexivity. }
  rewrite E. pose proof (Z.mod_pos_bound y 4096 ltac:(lia)). lia.
Qed.

(** X4: whatever the flags word of an entry holds, [ce_namelen] lies in
    0..0xFFF and [ce_stage] in 0..3. *)
Theorem entry_flag_fields_bounded (host : byte_order) (ce : cache_entry) :
  0 <= ce_namelen host ce <= 0xFFF /\ 0 <= ce_stage host ce <= 3.
Proof.
  split; [apply ce_namelen_range |].
  unfold ce_stage. rewrite stage_bits.
  pose proof (Z.mod_pos_bound (Z.shiftr (ntohs host (ce_flags ce)) 12) 4
                ltac:(lia)).
  lia.
Qed.

(** X5: the on-disk size [ce_size(ce)] of any entry is a multiple of 8
    between 64 and 4160 bytes, and exceeds the header plus the recorded
    name length by 1 to 8 bytes. *)
Theorem ce_size_on_disk_bounds (host : byte_order) (ce : cache_entry) :
  ce_size_on_disk host ce mod 8 = 0 /\
  64 <= ce_size_on_disk host ce <= 4160 /\
  offsetof_name + ce_namelen host ce + 1 <= ce_size_on_disk host ce
    <= offsetof_name + ce_namelen host ce + 8.
Proof.
  unfold ce_size_on_disk, cache_entry_size.
  pose proof (ce_namelen_range host ce) as Hn.
  rewrite land_lnot_7. change offsetof_name with 62.
  set (n := ce_namelen host ce) in *.
  pose proof (Z.div_mod (62 + n + 8) 8 ltac:(lia)).
  pose proof (Z.mod_pos_bound (62 + n + 8) 8 ltac:(lia)).
  split; [rewrite Z.mul_comm; apply Z.mod_mul; lia |].
  lia.
Qed.

Lemma small_bits_high (a n i : Z) :
  0 <= a < 2 ^ n -> 0 <= n <= i -> Z.testbit a i = false.
Proof.
  intros Ha Hi. rewrite <- (Z.mod_small a (2 ^ n)) by lia.
  apply Z.mod_pow2_bits_high. lia.
Qed.

(** X6: flags built by [create_ce_flags] from a name length of at most
    0xFFF and a stage in 0..3 have neither [CE_VALID] nor [CE_UPDATE] set,
    and two different (length, stage) pairs never give the same flags. *)
Theorem create_ce_flags_fresh
  (host : byte_order) (len stage len' stage' : Z)
  (Hlen : 0 <= len <= 0xFFF) (Hstage : 0 <= stage <= 3)
  (Hlen' : 0 <= len' <= 0xFFF) (Hstage' : 0 <= stage' <= 3) :
  Z.land (ntohs host (create_ce_flags host len stage))
         (Z.lor CE_UPDATE CE_VALID) = 0 /\
  (create_ce_flags host len stage = create_ce_flags host len' stage' ->
   len = len' /\ stage = stage').
Proof.
  split.
  - unfold create_ce_flags. rewrite ntohs_htons.
    unfold uint16, CE_UPDATE, CE_VALID, CE_STAGESHIFT.
    change 65536 with (2 ^ 16).
    change (Z.lor 0x4000 0x8000) with (Z.shiftl (Z.ones 2) 14).
    apply Z.bits_inj'. intros i Hi.
    rewrite Z.land_spec, Z.testbit_mod_pow2, Z.bits_0 by lia.
    rewrite Z.shiftl_spec by lia.
    destruct (Z.ltb_spec i 14) as [Hlo | Hhi].
    + rewrite (Z.testbit_neg_r _ (i - 14)) by lia. apply andb_false_r.
    + rewrite Z.lor_spec, Z.shiftl_spec by lia.
      rewrite (small_bits_high len 12 i), (small_bits_high stage 2 (i - 12))
        by lia.
      cbn [orb]. rewrite andb_false_r. reflexivity.
  - intros Heq.
    pose proof (ce_namelen_create host len stage 0 [] ltac:(lia)) as N1.
    pose proof (ce_namelen_create host len' stage' 0 [] ltac:(lia)) as N2.
    pose proof (ce_stage_create host len stage 0 []) as S1.
    pose proof (ce_stage_create host len' stage' 0 []) as S2.
    rewrite Heq in N1, S1. rewrite N1 in N2. rewrite S1 in S2.
    rewrite !Z.mod_small in N2 by lia.
    rewrite (Z.div_small len), (Z.div_small len') in S2 by lia.
    rewrite !Z.lor_0_l, !Z.mod_small in S2 by lia.
    auto.
Qed.

Lemma create_ce_flags_fresh_witness :
  Z.land (ntohs LittleEndian (create_ce_flags LittleEndian 6 2))
         (Z.lor CE_UPDATE CE_VALID) = 0.
Proof.
  apply (create_ce_flags_fresh LittleEndian 6 2 6 2); lia.
Defined.

(** ** Object identifiers as an ordered, copyable value *)

Lemma memcmp_refl (n : nat) : forall s : list byte, memcmp s s n = 0.
Proof.
  induction n as [| n IH]; intros s; simpl; [reflexivity |].
  rewrite Z.eqb_refl. apply IH.
Qed.

Lemma memcmp_antisym (n : nat) :
  forall s1 s2 : list byte, memcmp s2 s1 n = - memcmp s1 s2 n.
Proof.
  induction n as [| n IH]; intros s1 s2; simpl; [reflexivity |].
  rewrite (Z.eqb_sym (byte_val (hd x00 s2))).
  destruct (byte_val (hd x00 s1) =? byte_val (hd x00 s2)); [apply IH | lia].
Qed.

Lemma memcmp_trans (n : nat) :
  forall s1 s2 s3 : list byte,
    memcmp s1 s2 n < 0 -> memcmp s2 s3 n < 0 -> memcmp s1 s3 n < 0.
Proof.
  induction n as [| n IH]; intros s1 s2 s3; simpl; [lia |].
  pose proof (N2Z.is_nonneg (Byte.to_N (hd x00 s1))).
  destruct (Z.eqb_spec (byte_val (hd x00 s1)) (byte_val (hd x00 s2)));
    destruct (Z.eqb_spec (byte_val (hd x00 s2)) (byte_val (hd x00 s3)));
    destruct (Z.eqb_spec (byte_val (hd x00 s1)) (byte_val (hd x00 s3)));
    try lia.
  apply IH.
Qed.

(** X7: on 20-byte digests [hashcmp] is a strict total order up to sign:
    a digest compares equal to itself, swapping the arguments flips the
    sign of the result, and "less than" is transitive. *)
Theorem hashcmp_order (a b c : list byte)
  (Ha : length a = 20%nat) (Hb : length b = 20%nat)
  (Hc : length c = 20%nat) :
  hashcmp a a = 0 /\
  (hashcmp a b < 0 <-> 0 < hashcmp b a) /\
  (hashcmp a b = 0 <-> hashcmp b a = 0) /\
  (hashcmp a b < 0 -> hashcmp b c < 0 -> hashcmp a c < 0).
Proof.
  unfold hashcmp. rewrite (memcmp_antisym 20 a b).
  split; [apply memcmp_refl |]. split; [lia |]. split; [lia |].
  apply memcmp_trans.
Qed.

Lemma hashcmp_order_witness :
  let a := repeat x00 20 in
  let b := repeat x01 20 in
  let c := repeat x02 20 in
  hashcmp a b < 0 /\ hashcmp b c < 0 /\ hashcmp a c < 0.
Proof.
  intros a b c.
  assert (Hab : hashcmp a b < 0) by (vm_compute; reflexivity).
  assert (Hbc : hashcmp b c < 0) by (vm_compute; reflexivity).
  split; [exact Hab |]. split; [exact Hbc |].
  destruct (hashcmp_order a b c) as (_ & _ & _ & Htrans);
    [reflexivity | reflexivity | reflexivity |].
  exact (Htrans Hab Hbc).
Defined.

Lemma firstn_app_exact {A : Type} (n : nat) (l1 l2 : list A) :
  length l1 = n -> firstn n (l1 ++ l2) = l1.
Proof.
  intros <-. rewrite firstn_app, firstn_all, Nat.sub_diag. simpl.
  apply app_nil_r.
Qed.

Lemma skipn_app_exact {A : Type} (n : nat) (l1 l2 : list A) :
  length l1 = n -> skipn n (l1 ++ l2) = l2.
Proof.
  intros <-. rewrite skipn_app, skipn_all, Nat.sub_diag. reflexivity.
Qed.

(** X8: on buffers of at least 20 bytes, [hashcpy] makes the destination
    compare equal to the source under [hashcmp], [hashclr] makes it the
    null id, and both leave the length of the buffer and every byte past
    the twentieth as they were. *)
Theorem hashcpy_hashclr (dst src : list byte)
  (Hdst : (20 <= length dst)%nat) (Hsrc : (20 <= length src)%nat) :
  hashcmp (hashcpy dst src) src = 0 /\
  is_null_sha1 (hashclr dst) = true /\
  is_null_sha1 (hashcpy dst src) = is_null_sha1 src /\
  length (hashcpy dst src) = length dst /\
  length (hashclr dst) = length dst /\
  skipn 20 (hashcpy dst src) = skipn 20 dst /\
  skipn 20 (hashclr dst) = skipn 20 dst.
Proof.
  unfold hashcpy, hashclr, memcpy, memset, is_null_sha1, hashcmp, null_sha1.
  assert (L1 : length (firstn 20 src) = 20%nat)
    by (rewrite length_firstn; lia).
  assert (L2 : length (repeat x00 20) = 20%nat) by apply repeat_length.
  assert (F1 : firstn 20 (firstn 20 src ++ skipn 20 dst) = firstn 20 src).
  { apply firstn_app_exact, L1. }
  assert (F2 : firstn 20 (repeat x00 20 ++ skipn 20 dst) = repeat x00 20).
  { apply firstn_app_exact, L2. }
  assert (Hlen1 : length (firstn 20 src ++ skipn 20 dst) = length dst)
    by (rewrite length_app, L1, length_skipn; lia).
  assert (Hlen2 : length (repeat x00 20 ++ skipn 20 dst) = length dst)
    by (rewrite length_app, L2, length_skipn; lia).
  assert (M : forall s1 s2 : list byte,
             (20 <= length s1)%nat -> (20 <= length s2)%nat ->
             firstn 20 s1 = firstn 20 s2 -> forall t, 
             (20 <= length t)%nat -> memcmp s1 t 20 = memcmp s2 t 20).
  { intros s1 s2 H1 H2 Heq t Ht.
    assert (G : forall (n : nat) (u v w : list byte),
               firstn n u = firstn n v -> memcmp u w n = memcmp v w n).
    { induction n as [| n IH]; intros u v w Huv; [reflexivity |].
      destruct u as [| x u], v as [| y v]; simpl in Huv; try discriminate.
      - reflexivity.
      - injection Huv as -> Huv. simpl.
        destruct (byte_val y =? byte_val (hd x00 w)); [| reflexivity].
        apply IH. exact Huv. }
    apply G. exact Heq. }
  split; [| split; [| split; [| split; [| split; [| split]]]]].
  - apply memcmp_zero_iff; [lia | lia |]. rewrite F1. reflexivity.
  - apply Z.eqb_eq. apply memcmp_zero_iff; [lia | simpl; lia |].
    rewrite F2. reflexivity.
  - f_equal. apply M; try lia. exact F1.
  - exact Hlen1.
  - exact Hlen2.
  - apply skipn_app_exact, L1.
  - apply skipn_app_exact, L2.
Qed.

Lemma hashcpy_hashclr_witness :
  let dst := repeat xff 24 in
  let src := repeat x07 20 in
  hashcmp (hashcpy dst src) src = 0 /\ is_null_sha1 (hashclr dst) = true.
Proof.
  intros dst src.
  destruct (hashcpy_hashclr dst src) as (H1 & H2 & _);
    [simpl; lia | simpl; lia |].
  split; assumption.
Defined.

(** ** Growth of arrays and buffers *)

(** X9: as long as the arithmetic stays within 32 bits, [ALLOC_GROW]
    leaves in [alloc] a capacity of at least [nr] that is never smaller
    than before; it changes nothing when [nr] already fits, and when it
    grows it grows to the larger of [nr] and [(alloc + 16) * 3 / 2], which
    is at least 24 slots and half as much again more than before. *)
Theorem ALLOC_GROW_capacity (nr alloc : Z)
  (Halloc : 0 <= alloc) (Hnr : 0 <= nr < 4294967296)
  (Hfit : (alloc + 16) * 3 < 4294967296) :
  let alloc' := ALLOC_GROW nr alloc in
  nr <= alloc' /\ alloc <= alloc' /\
  (nr <= alloc -> alloc' = alloc) /\
  (alloc < nr ->
   alloc' = Z.max nr ((alloc + 16) * 3 / 2) /\
   alloc + alloc / 2 + 24 <= Z.max nr ((alloc + 16) * 3 / 2)).
Proof.
  intros alloc'. subst alloc'. unfold ALLOC_GROW, alloc_nr, uint32.
  rewrite (Z.mod_small (alloc + 16)) by lia.
  rewrite (Z.mod_small ((alloc + 16) * 3)) by lia.
  pose proof (Z.div_mod ((alloc + 16) * 3) 2 ltac:(lia)).
  pose proof (Z.mod_pos_bound ((alloc + 16) * 3) 2 ltac:(lia)).
  pose proof (Z.div_mod alloc 2 ltac:(lia)).
  pose proof (Z.mod_pos_bound alloc 2 ltac:(lia)).
  destruct (Z.ltb_spec alloc nr);
    [destruct (Z.ltb_spec ((alloc + 16) * 3 / 2) nr) |]; lia.
Qed.

Lemma ALLOC_GROW_capacity_witness :
  ALLOC_GROW 1 0 = 24 /\ ALLOC_GROW 100 24 = 100 /\ ALLOC_GROW 24 24 = 24.
Proof.
  destruct (ALLOC_GROW_capacity 1 0) as (_ & _ & _ & H1); [lia | lia | lia |].
  destruct (ALLOC_GROW_capacity 100 24) as (_ & _ & _ & H2);
    [lia | lia | lia |].
  destruct (ALLOC_GROW_capacity 24 24) as (_ & _ & H3 & _);
    [lia | lia | lia |].
  destruct H1 as [H1 _]; [lia |]. destruct H2 as [H2 _]; [lia |].
  split; [exact H1 |]. split; [exact H2 | apply H3; lia].
Defined.




(** ** More on [quote_path] *)

Lemma quote_path_one_line
      (in_ : list byte) (len : Z) (out : strbuf) (pfx : option (list byte)) :
  quote_path in_ len out pfx <> [] /\
  ~ In ch_newline (quote_path in_ len out pfx) /\
  ~ In ch_return (quote_path in_ len out pfx).
Proof.
  assert (Hclosing : exists body : strbuf,
            (~ In ch_newline body /\ ~ In ch_return body) /\
            quote_path in_ len out pfx =
              if Z.of_nat (length body) =? 0
              then strbuf_addstr body str_curdir else body).
  { unfold quote_path.
    set (n0 := if len <? 0 then strlen in_ else len).
    assert (Hnil : ~ In ch_newline (@nil byte) /\ ~ In ch_return (@nil byte))
      by (simpl; tauto).
    destruct pfx as [p |].
    - destruct (strip_common_dirs p in_ n0 0) as [[p' in'] len'].
      eexists. split; [| reflexivity].
      apply quote_bytes_clean, add_updirs_clean, Hnil.
    - eexists. split; [| reflexivity].
      apply quote_bytes_clean, Hnil. }
  destruct Hclosing as (body & Hbody & Hr). rewrite Hr.
  destruct (Z.eqb_spec (Z.of_nat (length body)) 0) as [E | E].
  - unfold strbuf_addstr. rewrite !in_app_iff. split; [| split].
    + intros H. apply app_eq_nil in H as [_ H]. discriminate H.
    + intros [H | [H | [H | []]]]; try discriminate H. tauto.
    + intros [H | [H | [H | []]]]; try discriminate H. tauto.
  - split; [| exact Hbody]. intros H. rewrite H in E. simpl in E. lia.
Qed.

Lemma escape_plain (l : list byte) :
  ~ In ch_newline l -> ~ In ch_return l -> flat_map escape_byte l = l.
Proof.
  induction l as [| c l IH]; intros Hn Hr; [reflexivity |].
  simpl in Hn, Hr. cbn [flat_map]. rewrite IH by tauto.
  unfold escape_byte.
  destruct (byte_eqb_spec c ch_newline) as [E | _];
    [exfalso; apply Hn; left; congruence |].
  destruct (byte_eqb_spec c ch_return) as [E | _];
    [exfalso; apply Hr; left; congruence |].
  reflexivity.
Qed.

(** X11: without a prefix (NULL, or the empty string), a non-empty path
    that holds no '\n' and no '\r' comes back from [quote_path] byte for
    byte. *)
Theorem quote_path_plain (in_ : list byte) (out : strbuf)
  (Hne : in_ <> [])
  (Hn : ~ In ch_newline in_) (Hr : ~ In ch_return in_) :
  quote_path in_ (Z.of_nat (length in_)) out None = in_ /\
  quote_path in_ (Z.of_nat (length in_)) out (Some []) = in_.
Proof.
  assert (H : quote_path in_ (Z.of_nat (length in_)) out None = in_).
  { unfold quote_path.
    destruct (Z.ltb_spec (Z.of_nat (length in_)) 0); [lia |].
    rewrite Nat2Z.id, quote_bytes_spec by lia.
    rewrite firstn_all, escape_plain by assumption. cbn [app].
    destruct in_ as [| c l]; [contradiction |].
    cbn [length]. rewrite Nat2Z.inj_succ.
    destruct (Z.eqb_spec (Z.succ (Z.of_nat (length l))) 0); [lia |].
    reflexivity. }
  split; [exact H |].
  assert (E : quote_path in_ (Z.of_nat (length in_)) out (Some [])
              = quote_path in_ (Z.of_nat (length in_)) out None).
  { unfold quote_path. rewrite strip_common_dirs_step. reflexivity. }
  rewrite E. exact H.
Qed.

Lemma quote_path_plain_witness :
  quote_path (list_byte_of_string "dir/file.c") 10 [] None
  = list_byte_of_string "dir/file.c".
Proof.
  apply (quote_path_plain (list_byte_of_string "dir/file.c") []).
  - discriminate.
  - vm_compute. intuition discriminate.
  - vm_compute. intuition discriminate.
Defined.

Lemma last_skipn_slash (p : list byte) :
  forall k : nat,
    last p ch_slash = ch_slash -> last (skipn k p) ch_slash = ch_slash.
Proof.
  induction p as [| c p IH]; intros [| k] H; try exact H; try reflexivity.
  cbn [skipn]. apply IH.
  destruct p as [| d p]; [reflexivity | exact H].
Qed.

Lemma last_in {A : Type} (l : list A) (d : A) : l <> [] -> In (last l d) l.
Proof.
  induction l as [| a l IH]; intros H; [contradiction |].
  destruct l as [| b l]; [left; reflexivity |].
  right. apply IH. discriminate.
Qed.

(** The scan over a prefix that names a directory (it ends with '/') and
    an input that lies below it strips the whole prefix. *)
Lemma strip_common_dirs_below (n : nat) :
  forall (p rest : list byte) (len off : Z),
    n = Z.to_nat (Z.of_nat (length p) - off) ->
    Forall (fun c => c <> ch_nul) p ->
    last p ch_slash = ch_slash ->
    0 <= off <= Z.of_nat (length p) ->
    Z.of_nat (length p) <= len ->
    ~ In ch_slash (firstn (Z.to_nat off) p) ->
    strip_common_dirs p (p ++ rest) len off
    = ([], rest, len - Z.of_nat (length p)).
Proof.
  induction n as [n IH] using lt_wf_ind.
  intros p rest len off Hn Hnul Hlast Hoff Hlen Hnoslash.
  rewrite strip_common_dirs_step.
  destruct (Z.eq_dec off (Z.of_nat (length p))) as [Hend | Hmid].
  - (* the scan reached the end of the prefix: the prefix is empty *)
    assert (Hp : p = []).
    { destruct p as [| c p]; [reflexivity |]. exfalso.
      apply Hnoslash. rewrite Hend, Nat2Z.id, firstn_all.
      rewrite <- Hlast at 1. apply last_in. discriminate. }
    subst p. simpl in Hend. subst off.
    cbn. rewrite Z.sub_0_r. reflexivity.
  - assert (Hlt : (Z.to_nat off < length p)%nat) by lia.
    assert (Hc : char_at p off = nth (Z.to_nat off) p ch_nul).
    { unfold char_at. destruct (Z.ltb_spec off 0); [lia | reflexivity]. }
    assert (Hc' : char_at (p ++ rest) off = nth (Z.to_nat off) p ch_nul).
    { unfold char_at. destruct (Z.ltb_spec off 0); [lia |].
      apply app_nth1. exact Hlt. }
    assert (Hnz : nth (Z.to_nat off) p ch_nul <> ch_nul).
    { rewrite Forall_forall in Hnul. apply Hnul. apply nth_In. exact Hlt. }
    assert (Hguard : common_dir_guard p (p ++ rest) len off = true).
    { unfold common_dir_guard. rewrite Hc, Hc'.
      destruct (byte_eqb_spec (nth (Z.to_nat off) p ch_nul) ch_nul);
        [contradiction |].
      destruct (Z.ltb_spec off len); [| lia].
      destruct (byte_eqb_spec (nth (Z.to_nat off) p ch_nul)
                              (nth (Z.to_nat off) p ch_nul));
        [reflexivity | contradiction]. }
    rewrite Hguard, Hc.
    assert (Hsucc : Z.to_nat (off + 1) = S (Z.to_nat off)) by lia.
    destruct (byte_eqb_spec (nth (Z.to_nat off) p ch_nul) ch_slash)
      as [Hslash | Hother].
    + unfold ptr_add. rewrite skipn_app.
      replace (Z.to_nat (off + 1) - length p)%nat with 0%nat by lia.
      cbn [skipn].
      rewrite (IH (length (skipn (Z.to_nat (off + 1)) p))).
      * rewrite length_skipn. f_equal. lia.
      * rewrite length_skipn. lia.
      * lia.
      * rewrite Forall_forall in *. intros c Hin. apply Hnul.
        rewrite <- (firstn_skipn (Z.to_nat (off + 1)) p).
        apply in_or_app. now right.
      * apply last_skipn_slash, Hlast.
      * rewrite length_skipn. lia.
      * rewrite length_skipn. lia.
      * simpl. tauto.
    + apply (IH (Z.to_nat (Z.of_nat (length p) - (off + 1)))); auto; try lia.
      rewrite Hsucc, (firstn_snoc_nth ch_nul _ _ Hlt), in_app_iff.
      intros [H | [H | []]]; [exact (Hnoslash H) | congruence].
Qed.

(** X12: when the prefix names a directory (no NUL inside, a '/' at its
    end) and the input path lies below that directory, [quote_path] shows
    the path relative to it: the result is what [quote_path] gives, without
    prefix, for the rest of the path after the prefix. *)
Theorem quote_path_below_prefix (p rest : list byte) (out : strbuf)
  (Hnul : Forall (fun c => c <> ch_nul) p)
  (Hdir : last p ch_slash = ch_slash) :
  quote_path (p ++ rest) (Z.of_nat (length (p ++ rest))) out (Some p)
  = quote_path rest (Z.of_nat (length rest)) out None.
Proof.
  unfold quote_path.
  destruct (Z.ltb_spec (Z.of_nat (length (p ++ rest))) 0); [lia |].
  destruct (Z.ltb_spec (Z.of_nat (length rest)) 0); [lia |].
  rewrite (strip_common_dirs_below (length p) p rest); auto;
    try (rewrite ?length_app; simpl; lia); try (simpl; tauto).
  cbn [add_updirs]. rewrite length_app.
  replace (Z.of_nat (length p + length rest) - Z.of_nat (length p))
    with (Z.of_nat (length rest)) by lia.
  reflexivity.
Qed.

Lemma quote_path_below_prefix_witness :
  quote_path (list_byte_of_string "src/lib/a.c") 11 []
             (Some (list_byte_of_string "src/lib/"))
  = list_byte_of_string "a.c".
Proof.
  assert (Hnul : Forall (fun c => c <> ch_nul)
                        (list_byte_of_string "src/lib/"))
    by (repeat constructor; discriminate).
  assert (Hdir : last (list_byte_of_string "src/lib/") ch_slash = ch_slash)
    by reflexivity.
  exact (eq_trans
           (quote_path_below_prefix (list_byte_of_string "src/lib/")
              (list_byte_of_string "a.c") [] Hnul Hdir)
           eq_refl).
Defined.

(** ** The shape of the untracked listing, whatever the index *)

Lemma print_untracked_loop_shape (host : byte_order) (istate : index_state) :
  forall (entries : list dir_entry) (s : wt_status) (shown : bool)
         (buf : strbuf) (printed : list status_line),
    let shows ent :=
      match untracked_entry_action host istate ent with
      | ActionShow => true | _ => false end in
    let dies ent :=
      match untracked_entry_action host istate ent with
      | ActionDie => true | _ => false end in
    match print_untracked_loop host istate entries s shown buf printed with
    | Died _ => existsb dies entries = true
    | Returned s' out =>
        existsb dies entries = false /\
        out = printed ++ untracked_lines s shown (filter shows entries) /\
        s' = if shown || (length (filter shows entries) =? 0)%nat then s
             else {| prefix := prefix s; untracked := untracked s;
                     workdir_untracked := 1 |}
    end.
Proof.
  induction entries as [| ent rest IH]; intros s shown buf printed shows dies.
  - simpl. unfold untracked_lines. simpl.
    rewrite orb_true_r, app_nil_r. auto.
  - cbn [print_untracked_loop existsb filter]. subst shows dies. cbv beta.
    destruct (untracked_entry_action host istate ent) eqn:Hact.
    + reflexivity.
    + cbn [orb]. apply IH.
    + cbv zeta. cbn [orb].
      match goal with
      | |- context [print_untracked_loop host istate rest ?s' true ?b ?pr] =>
          specialize (IH s' true b pr);
          assert (Hprefix : prefix s' = prefix s)
            by (destruct shown; reflexivity);
          assert (Hs' : s' = if shown then s
                             else {| prefix := prefix s;
                                     untracked := untracked s;
                                     workdir_untracked := 1 |})
            by reflexivity;
          destruct (print_untracked_loop host istate rest s' true b pr)
            as [out | s'' out]; [exact IH |]
      end.
      cbv zeta in IH. destruct IH as (Hnone & Hout & Hs'').
      split; [exact Hnone |]. split.
      * rewrite Hout. unfold untracked_lines. rewrite Hprefix.
        cbn [orb length Nat.eqb map app].
        change (quote_path (ent_name ent) (ent_len ent) buf)
          with (quote_path (ent_name ent) (ent_len ent) []).
        destruct shown; cbn [orb app]; rewrite <- !app_assoc; reflexivity.
      * cbn [orb] in Hs''. rewrite Hs''.
        cbn [length Nat.eqb]. rewrite orb_false_r. exact Hs'.
Qed.

Lemma c_string_incl (l : list byte) (x : byte) :
  In x (c_string l) -> In x l.
Proof.
  induction l as [| c l IH]; simpl; [tauto |].
  destruct (Byte.eqb c ch_nul); simpl; [tauto |].
  intros [H | H]; [left; exact H | right; exact (IH H)].
Qed.

Lemma c_string_no_nul (l : list byte) : ~ In ch_nul (c_string l).
Proof.
  induction l as [| c l IH]; simpl; [tauto |].
  destruct (byte_eqb_spec c ch_nul) as [E | E]; simpl; [tauto |].
  intros [H | H]; [exact (E H) | exact (IH H)].
Qed.

Lemma c_string_nul_free (l : list byte) :
  ~ In ch_nul l -> c_string l = l.
Proof.
  induction l as [| c l IH]; simpl; [reflexivity |].
  intros H. destruct (byte_eqb_spec c ch_nul) as [E | E].
  - exfalso. apply H. left. exact E.
  - f_equal. apply IH. intros Hin. apply H. right. exact Hin.
Qed.

Lemma firstn_incl {A : Type} (n : nat) (l : list A) (x : A) :
  In x (firstn n l) -> In x l.
Proof.
  intros H. rewrite <- (firstn_skipn n l). apply in_or_app. left. exact H.
Qed.

Lemma skipn_incl {A : Type} (n : nat) (l : list A) (x : A) :
  In x (skipn n l) -> In x l.
Proof.
  intros H. rewrite <- (firstn_skipn n l). apply in_or_app. right. exact H.
Qed.

(** [quote_path] writes no NUL byte for a path that holds none. *)
Lemma quote_path_nul_free
      (in_ : list byte) (len : Z) (out : strbuf) (pfx : option (list byte)) :
  len <= Z.of_nat (length in_) -> ~ In ch_nul in_ ->
  ~ In ch_nul (quote_path in_ len out pfx).
Proof.
  intros Hbuf Hfree.
  destruct (quote_path_form in_ len out pfx Hbuf) as (_ & _ & Hr).
  rewrite Hr. clear Hr.
  match goal with |- context [if ?b then _ else _] => destruct b end.
  { intros [H | [H | []]]; discriminate H. }
  rewrite in_app_iff. intros [H | H].
  - apply in_concat in H as (x & Hx & Hin).
    apply repeat_spec in Hx. subst x.
    destruct Hin as [H | [H | [H | []]]]; discriminate H.
  - apply in_flat_map in H as (c & Hc & Hin).
    apply firstn_incl, skipn_incl in Hc.
    unfold escape_byte in Hin.
    destruct (Byte.eqb c ch_newline);
      [destruct Hin as [H | [H | []]]; discriminate H |].
    destruct (Byte.eqb c ch_return);
      [destruct Hin as [H | [H | []]]; discriminate H |].
    destruct Hin as [H | []]. subst c. exact (Hfree Hc).
Qed.

(** X13: whatever the index holds, a run of [wt_status_print_untracked]
    that returns has printed nothing and left [s] alone when no scanned
    entry was to be shown; otherwise it has printed the header block once,
    first, then one line per shown entry in scan order, and has set
    [workdir_untracked] to 1 and changed nothing else of [s].  A path line
    is what [%s] prints of the quoted path, the bytes before its first
    NUL: it holds no NUL and no raw '\n' or '\r'; it is non-empty when the
    scanned names hold no NUL byte within their buffers (a name that
    starts with a NUL is printed as an empty path).  The run dies exactly
    when some scanned entry trips the bug assertion. *)
Theorem wt_status_print_untracked_shape
  (host : byte_order) (istate : index_state) (entries : list dir_entry)
  (s : wt_status) :
  let shows ent :=
    match untracked_entry_action host istate ent with
    | ActionShow => true | _ => false end in
  let dies ent :=
    match untracked_entry_action host istate ent with
    | ActionDie => true | _ => false end in
  let line ent :=
    UntrackedPath
      (c_string (quote_path (ent_name ent) (ent_len ent) [] (prefix s))) in
  match wt_status_print_untracked host istate entries s with
  | Died _ => existsb dies entries = true
  | Returned s' printed =>
      existsb dies entries = false /\
      match filter shows entries with
      | [] => printed = [] /\ s' = s
      | shown =>
          printed = UntrackedHeader :: map line shown /\
          s' = {| prefix := prefix s; untracked := untracked s;
                  workdir_untracked := 1 |}
      end /\
      Forall (fun l => match l with
                       | UntrackedHeader => True
                       | UntrackedPath q =>
                           ~ In ch_nul q /\
                           ~ In ch_newline q /\ ~ In ch_return q
                       end) printed /\
      (Forall (fun ent =>
                 ent_len ent <= Z.of_nat (length (ent_name ent)) /\
                 ~ In ch_nul (ent_name ent)) entries ->
       Forall (fun l => match l with
                        | UntrackedHeader => True
                        | UntrackedPath q => q <> []
                        end) printed)
  end.
Proof.
  intros shows dies line. unfold wt_status_print_untracked.
  pose proof (print_untracked_loop_shape host istate entries s false [] [])
    as H.
  cbv zeta in H. fold shows dies in H.
  destruct (print_untracked_loop host istate entries s false [] [])
    as [out | s' out]; [exact H |].
  destruct H as (Hnone & Hout & Hs').
  cbn [app orb] in Hout, Hs'. unfold untracked_lines in Hout.
  cbn [orb] in Hout.
  split; [exact Hnone |]. split; [| split].
  - destruct (filter shows entries) as [| e l]; cbn in Hout, Hs'; auto.
  - rewrite Hout. apply Forall_app. split.
    + destruct (length (filter shows entries) =? 0)%nat; repeat constructor.
    + apply Forall_forall. intros l Hin.
      apply in_map_iff in Hin as (ent & <- & _).
      destruct (quote_path_one_line (ent_name ent) (ent_len ent) []
                                    (prefix s)) as (_ & Hn & Hr).
      split; [apply c_string_no_nul |].
      split; intros Hin; [apply Hn | apply Hr];
        exact (c_string_incl _ _ Hin).
  - intros Hnames. rewrite Hout. apply Forall_app. split.
    + destruct (length (filter shows entries) =? 0)%nat; repeat constructor.
    + apply Forall_forall. intros l Hin.
      apply in_map_iff in Hin as (ent & <- & Hent).
      apply filter_In in Hent as [Hent _].
      rewrite Forall_forall in Hnames.
      destruct (Hnames ent Hent) as [Hlen Hfree].
      rewrite c_string_nul_free
        by (apply quote_path_nul_free; assumption).
      apply quote_path_one_line.
Qed.

Lemma wt_status_print_untracked_shape_witness :
  let istate := sample_index LittleEndian in
  let entries := map sample_dir_entry ["c"; "e/f"]%string in
  let s := {| prefix := Some (list_byte_of_string "e/");
              untracked := 0; workdir_untracked := 0 |} in
  Forall (fun ent =>
            ent_len ent <= Z.of_nat (length (ent_name ent)) /\
            ~ In ch_nul (ent_name ent)) entries /\
  match wt_status_print_untracked LittleEndian istate entries s with
  | Died _ => False
  | Returned _ printed =>
      Forall (fun l => match l with
                       | UntrackedHeader => True
                       | UntrackedPath q => q <> []
                       end) printed
  end.
Proof.
  intros istate entries s.
  assert (Hnames : Forall (fun ent =>
                             ent_len ent <= Z.of_nat (length (ent_name ent)) /\
                             ~ In ch_nul (ent_name ent)) entries).
  { repeat constructor; try (vm_compute; discriminate);
      simpl; intuition discriminate. }
  split; [exact Hnames |].
  pose proof (wt_status_print_untracked_shape LittleEndian istate entries s)
    as H.
  cbv zeta in H.
  destruct (wt_status_print_untracked LittleEndian istate entries s)
    as [printed | s' printed] eqn:E.
  - vm_compute in E. discriminate E.
  - destruct H as (_ & _ & _ & H). exact (H Hnames).
Defined.

(** A scanned name that starts with a NUL byte is listed as an empty
    path: [%s] stops at the NUL that [quote_path] copied. *)
Example print_untracked_nul_name :
  wt_status_print_untracked LittleEndian
    {| cache := []; cache_changed := 0; timestamp := 0 |}
    [{| ent_len := 1; ent_name := [x00] |}]
    {| prefix := None; untracked := 0; workdir_untracked := 0 |}
  = Returned {| prefix := None; untracked := 0; workdir_untracked := 1 |}
             [UntrackedHeader; UntrackedPath []].
Proof. vm_compute. reflexivity. Qed.

(** ** Colour slot names *)

Lemma tolower_nul (c : byte) : tolower c = ch_nul <-> c = ch_nul.
Proof. destruct c; split; intros H; try reflexivity; discriminate H. Qed.

Lemma char_at_0 (s : list byte) : char_at s 0 = hd ch_nul s.
Proof. destruct s; reflexivity. Qed.

Lemma c_string_head (s : list byte) :
  (hd ch_nul s = ch_nul /\ c_string s = []) \/
  (exists c s', s = c :: s' /\ c <> ch_nul /\
                c_string s = c :: c_string s').
Proof.
  destruct s as [| c s]; [left; split; reflexivity |].
  simpl. destruct (byte_eqb_spec c ch_nul) as [E | E].
  - left. split; [exact E | reflexivity].
  - right. exists c, s. auto.
Qed.

(** [strcasecmp] is 0 exactly when the two C strings agree once every
    letter is lowered. *)
Lemma strcasecmp_zero_iff (s1 : list byte) :
  forall s2 : list byte,
    strcasecmp s1 s2 = 0 <->
    map tolower (c_string s1) = map tolower (c_string s2).
Proof.
  induction s1 as [| x s1 IH]; intros s2.
  - cbn [strcasecmp]. rewrite !char_at_0. cbn [hd c_string map].
    change (byte_val (tolower ch_nul)) with 0.
    destruct (c_string_head s2) as [[Hh Hc] | (c & s' & -> & Hnz & Hc)].
    + rewrite Hh, Hc. simpl. tauto.
    + rewrite Hc. cbn [hd map].
      destruct (Z.eqb_spec 0 (byte_val (tolower c))) as [E | E]; cbn [negb].
      * exfalso. apply Hnz. apply tolower_nul. apply byte_val_inj.
        symmetry. exact E.
      * split; [lia | discriminate].
  - cbn [strcasecmp]. rewrite !char_at_0. cbn [hd].
    destruct (c_string_head (x :: s1)) as [[Hh Hc] | (c & s' & Hx & Hnz & Hc)].
    + cbn [hd] in Hh. subst x. rewrite Hc.
      change (byte_val (tolower ch_nul)) with 0.
      destruct (c_string_head s2) as [[Hh2 Hc2] | (c & s' & -> & Hnz & Hc2)].
      * rewrite Hh2, Hc2. simpl. tauto.
      * rewrite Hc2. cbn [hd map].
        destruct (Z.eqb_spec 0 (byte_val (tolower c))) as [E | E];
          cbn [negb].
        -- exfalso. apply Hnz. apply tolower_nul. apply byte_val_inj.
           symmetry. exact E.
        -- split; [lia | discriminate].
    + injection Hx as <- <-. rewrite Hc. cbn [map].
      assert (Hxnz : byte_val (tolower x) <> 0).
      { intros E. apply Hnz. apply tolower_nul. apply byte_val_inj.
        exact E. }
      destruct (c_string_head s2) as [[Hh2 Hc2] | (c & s' & -> & Hnz2 & Hc2)].
      * rewrite Hh2, Hc2. change (byte_val (tolower ch_nul)) with 0.
        destruct (Z.eqb_spec (byte_val (tolower x)) 0); [contradiction |].
        cbn [negb map]. split; [lia | discriminate].
      * rewrite Hc2. cbn [hd map].
        destruct (Z.eqb_spec (byte_val (tolower x)) (byte_val (tolower c)))
          as [E | E]; cbn [negb].
        -- destruct (Z.eqb_spec (byte_val (tolower x)) 0); [contradiction |].
           change (ptr_add (c :: s') 1) with s'.
           rewrite IH. apply byte_val_inj in E. rewrite E.
           split; [intros -> | intros H; injection H]; auto.
        -- split; [lia |]. intros H. injection H as H _.
           rewrite H in E. contradiction.
Qed.

(** X14: [parse_status_slot] looks only at the C string found [offset]
    bytes into the variable name, without regard to the case of its
    letters: "header" gives slot 0, "updated" and "added" both slot 1,
    "changed" slot 2, "untracked" slot 3, and anything else dies.  Every
    slot it returns is a row of the four-row table [wt_status_colors]. *)
Theorem parse_status_slot_spec (var : list byte) (offset : Z) :
  let word := map tolower (c_string (ptr_add var offset)) in
  (parse_status_slot var offset = Some WT_STATUS_HEADER
     <-> word = list_byte_of_string "header") /\
  (parse_status_slot var offset = Some WT_STATUS_UPDATED
     <-> word = list_byte_of_string "updated"
         \/ word = list_byte_of_string "added") /\
  (parse_status_slot var offset = Some WT_STATUS_CHANGED
     <-> word = list_byte_of_string "changed") /\
  (parse_status_slot var offset = Some WT_STATUS_UNTRACKED
     <-> word = list_byte_of_string "untracked") /\
  (forall slot, parse_status_slot var offset = Some slot ->
                0 <= slot < Z.of_nat (length wt_status_colors_init)).
Proof.
  intros word. unfold parse_status_slot.
  set (key := ptr_add var offset) in *.
  assert (T : forall lit : string,
             map tolower (c_string (list_byte_of_string lit))
               = list_byte_of_string lit ->
             ((strcasecmp key (list_byte_of_string lit) =? 0) = true
              <-> word = list_byte_of_string lit)).
  { intros lit Hlit. rewrite Z.eqb_eq, strcasecmp_zero_iff, Hlit.
    reflexivity. }
  pose proof (T "header"%string eq_refl) as T1.
  pose proof (T "updated"%string eq_refl) as T2.
  pose proof (T "added"%string eq_refl) as T3.
  pose proof (T "changed"%string eq_refl) as T4.
  pose proof (T "untracked"%string eq_refl) as T5.
  clear T. clearbody word.
  change (Z.of_nat (length wt_status_colors_init)) with 4.
  unfold WT_STATUS_HEADER, WT_STATUS_UPDATED, WT_STATUS_CHANGED,
    WT_STATUS_UNTRACKED.
  destruct (strcasecmp key (list_byte_of_string "header") =? 0);
    destruct (strcasecmp key (list_byte_of_string "updated") =? 0);
    destruct (strcasecmp key (list_byte_of_string "added") =? 0);
    destruct (strcasecmp key (list_byte_of_string "changed") =? 0);
    destruct (strcasecmp key (list_byte_of_string "untracked") =? 0);
    cbn [orb].
  all: repeat match goal with
              | H : true = true <-> _ |- _ =>
                  apply proj1 in H; specialize (H eq_refl)
              | H : false = true <-> _ |- _ => apply proj2 in H
              end.
  all: try subst word.
  all: try match goal with
           | H : list_byte_of_string _ = list_byte_of_string _ |- _ =>
               discriminate H
           end.
  all: repeat split; intros;
    try reflexivity;
    try match goal with
        | H : Some _ = Some _ |- _ => injection H as H; try subst; try lia
        | H : None = Some _ |- _ => discriminate H
        end;
    try discriminate;
    try match goal with
        | H : _ \/ _ |- _ => destruct H
        end;
    try (left; reflexivity); try (right; reflexivity);
    try match goal with
        | T : ?w = ?l -> false = true, H : ?w = ?l |- _ =>
            discriminate (T H)
        end;
    try match goal with
        | H : list_byte_of_string _ = list_byte_of_string _ |- _ =>
            discriminate H
        end.
Qed.

Example parse_status_slot_mixed_case :
  parse_status_slot (list_byte_of_string "color.status.Added") 13
  = Some WT_STATUS_UPDATED.
Proof. vm_compute. reflexivity. Qed.

(** ** The printing callbacks *)

Lemma bind_returns {A B : Type} (m : printing A) (f : A -> printing B)
      (o : list print_call) (a : A) :
  m = (o, Some a) -> bind m f = (o ++ fst (f a), snd (f a)).
Proof. intros ->. reflexivity. Qed.

Lemma bind_dies {A B : Type} (m : printing A) (f : A -> printing B)
      (o : list print_call) :
  m = (o, None) -> bind m f = (o, None).
Proof. intros ->. reflexivity. Qed.

Lemma label_clean (label : string) (q : list byte) :
  ~ In ch_newline (list_byte_of_string label) ->
  ~ In ch_return (list_byte_of_string label) ->
  ~ In ch_newline q -> ~ In ch_return q ->
  ~ In ch_newline (list_byte_of_string label ++ q) /\
  ~ In ch_return (list_byte_of_string label ++ q).
Proof. intros. rewrite !in_app_iff. tauto. Qed.

Section PrintingFacts.

Variable wt_status_use_color : Z.
Variable wt_status_colors : list (list byte).
Variable letters : diff_status_letters.

Local Abbreviation color' := (color wt_status_use_color wt_status_colors).
Local Abbreviation filepair :=
  (wt_status_print_filepair wt_status_use_color wt_status_colors letters).
Local Abbreviation cached_header :=
  (wt_status_print_cached_header wt_status_use_color wt_status_colors).
Local Abbreviation trailer :=
  (wt_status_print_trailer wt_status_use_color wt_status_colors).

(** The two ways [wt_status_print_filepair] ends. *)
Lemma wt_status_print_filepair_cases (s : wt_status) (t : Z)
      (p : diff_filepair) :
  (handled_status letters (status p) = true /\
   exists text,
     filepair s t p =
       ([ color_fprintf (color' WT_STATUS_HEADER) [x23; x09];
          color_fprintf (color' t) text;
          fprintf [ch_newline] ], Some tt) /\
     ~ In ch_newline text /\ ~ In ch_return text)
  \/
  (handled_status letters (status p) = false /\
   filepair s t p =
     ([ color_fprintf (color' WT_STATUS_HEADER) [x23; x09] ], None)).
Proof.
  unfold wt_status_print_filepair, handled_status. cbn [existsb].
  pose proof (quote_path_one_line (path (one p)) (-1) [] (prefix s))
    as (_ & Hn1 & Hr1).
  pose proof (quote_path_one_line (path (two p)) (-1) [] (prefix s))
    as (_ & Hn2 & Hr2).
  set (q1 := quote_path (path (one p)) (-1) [] (prefix s)) in *.
  set (q2 := quote_path (path (two p)) (-1) [] (prefix s)) in *.
  assert (Harrow : ~ In ch_newline (list_byte_of_string " -> " ++ q2) /\
                   ~ In ch_return (list_byte_of_string " -> " ++ q2)).
  { apply label_clean; try assumption;
      vm_compute; intuition discriminate. }
  repeat match goal with
         | |- context [Byte.eqb (status p) ?l] =>
             destruct (Byte.eqb (status p) l);
             [left; split; [reflexivity |];
              eexists; split; [reflexivity |];
              apply label_clean;
              try rewrite in_app_iff; try tauto;
              vm_compute; intuition discriminate |]
         end.
  right. split; reflexivity.
Qed.

(** X15: [wt_status_print_filepair] returns exactly when the status letter
    is one its [switch] has a case for, and has then written one complete
    line: the "#" and tab, one coloured text that holds no '\n' or '\r'
    even when the paths do, and the newline.  Otherwise it dies after the
    "#" and tab. *)
Theorem wt_status_print_filepair_one_line (s : wt_status) (t : Z)
        (p : diff_filepair) :
  (snd (filepair s t p) = Some tt <->
   handled_status letters (status p) = true) /\
  (snd (filepair s t p) = Some tt ->
   exists text,
     fst (filepair s t p) =
       [ color_fprintf (color' WT_STATUS_HEADER) [x23; x09];
         color_fprintf (color' t) text;
         fprintf [ch_newline] ] /\
     ~ In ch_newline text /\ ~ In ch_return text) /\
  (snd (filepair s t p) = None ->
   fst (filepair s t p) =
     [ color_fprintf (color' WT_STATUS_HEADER) [x23; x09] ]).
Proof.
  destruct (wt_status_print_filepair_cases s t p)
    as [(Hh & text & Heq & Hclean) | (Hh & Heq)]; rewrite Heq, Hh; cbn.
  - split; [tauto |]. split; [| discriminate].
    intros _. exists text. auto.
  - split; [split; discriminate |]. split; [discriminate | reflexivity].
Qed.

(** Both headers and the trailer always return. *)
Lemma cached_header_returns (f : wt_status_flags) :
  snd (cached_header f) = Some tt.
Proof.
  unfold wt_status_print_cached_header.
  destruct (reference f); reflexivity.
Qed.

Lemma trailer_returns : trailer = (fst trailer, Some tt).
Proof. reflexivity. Qed.

Lemma print_updated_loop_returns (s : wt_status) :
  forall (queue : list diff_filepair) (f : wt_status_flags) (sh : bool),
    Forall (fun p => handled_status letters (status p) = true)
           (filter not_unmerged queue) ->
    print_updated_loop wt_status_use_color wt_status_colors letters
      s queue f sh
    = (match filter not_unmerged queue with
       | [] => []
       | _ => if sh then [] else fst (cached_header f)
       end
       ++ flat_map (fun p => fst (filepair s WT_STATUS_UPDATED p))
                   (filter not_unmerged queue),
       Some (match filter not_unmerged queue with
             | [] => (f, sh)
             | _ => (if sh then f else with_commitable f, true)
             end)).
Proof.
  induction queue as [| p rest IH]; intros f sh Hknown.
  - reflexivity.
  - cbn [print_updated_loop filter] in *.
    assert (E : Byte.eqb (status p) x55 = negb (not_unmerged p))
      by (unfold not_unmerged; now rewrite negb_involutive).
    rewrite E. destruct (not_unmerged p); cbn [negb].
    2: { apply IH. exact Hknown. }
    + inversion Hknown as [| ? ? Hp Hrest]; subst.
      destruct (wt_status_print_filepair_cases s WT_STATUS_UPDATED p)
        as [(_ & text & Heq & _) | (Hh & _)]; [| congruence].
      cbn [flat_map].
      destruct sh.
      * unfold bind at 1. cbn [ret fst snd app].
        unfold bind at 1. rewrite Heq. cbn [fst snd].
        rewrite (IH f true Hrest). cbn [fst snd].
        f_equal. destruct (filter not_unmerged rest); reflexivity.
        destruct (filter not_unmerged rest); reflexivity.
      * unfold bind at 1.
        assert (Hh : cached_header f ;;; ret (with_commitable f, true)
                     = (fst (cached_header f),
                        Some (with_commitable f, true))).
        { unfold bind. rewrite cached_header_returns. cbn [ret fst snd].
          now rewrite app_nil_r. }
        unfold with_commitable in Hh. rewrite Hh. cbn [fst snd].
        unfold bind at 1. rewrite Heq. cbn [fst snd].
        rewrite (IH _ true Hrest). cbn [fst snd].
        f_equal.
        -- destruct (filter not_unmerged rest); cbn [app];
             rewrite <- ?app_assoc; reflexivity.
        -- destruct (filter not_unmerged rest); reflexivity.
Qed.

Lemma print_updated_loop_dies (s : wt_status) :
  forall (queue : list diff_filepair) (f : wt_status_flags) (sh : bool),
    Exists (fun p => handled_status letters (status p) = false)
           (filter not_unmerged queue) ->
    snd (print_updated_loop wt_status_use_color wt_status_colors letters
           s queue f sh) = None.
Proof.
  induction queue as [| p rest IH]; intros f sh Hbad.
  - inversion Hbad.
  - cbn [print_updated_loop filter] in *.
    assert (E : Byte.eqb (status p) x55 = negb (not_unmerged p))
      by (unfold not_unmerged; now rewrite negb_involutive).
    rewrite E. destruct (not_unmerged p); cbn [negb] in *.
    2: { apply IH. exact Hbad. }
    + assert (Hst : exists o st,
                (if sh then ret (f, sh)
                 else cached_header f ;;; ret (with_commitable f, true))
                = (o, Some st)).
      { destruct sh; [eexists; eexists; reflexivity |].
        unfold bind. rewrite cached_header_returns.
        eexists; eexists; reflexivity. }
      destruct Hst as (o & st & Hst). unfold with_commitable in Hst.
      unfold bind at 1. rewrite Hst. cbn [fst snd].
      destruct (wt_status_print_filepair_cases s WT_STATUS_UPDATED p)
        as [(Hh & text & Heq & _) | (Hh & Heq)].
      * unfold bind at 1. rewrite Heq. cbn [fst snd].
        apply IH. inversion Hbad as [? ? Hp | ? ? Hrest]; subst;
          [congruence | exact Hrest].
      * unfold bind at 1. rewrite Heq. reflexivity.
Qed.

(** X16: [wt_status_print_updated_cb] passes over every queued pair whose
    status is 'U'.  When every other pair has a status letter the
    [switch] handles, it returns: with nothing printed and the flags
    untouched if no pair is left, and otherwise with the "Changes to be
    committed" header block, then one line per remaining pair in queue
    order, then the trailer, and [commitable] set to 1.  When some
    remaining pair has an unhandled letter, it dies. *)
Theorem wt_status_print_updated_cb_shape
        (queue : list diff_filepair) (s : wt_status) (f : wt_status_flags) :
  let shown := filter not_unmerged queue in
  let run := wt_status_print_updated_cb wt_status_use_color
               wt_status_colors letters queue s f in
  (Forall (fun p => handled_status letters (status p) = true) shown ->
   run = match shown with
         | [] => ([], Some f)
         | _ =>
             (fst (cached_header f)
              ++ flat_map (fun p => fst (filepair s WT_STATUS_UPDATED p))
                          shown
              ++ fst trailer,
              Some (with_commitable f))
         end) /\
  (Exists (fun p => handled_status letters (status p) = false) shown ->
   snd run = None).
Proof.
  intros shown run. subst run. unfold wt_status_print_updated_cb. split.
  - intros Hknown.
    rewrite (bind_returns _ _ _ _
               (print_updated_loop_returns s queue f false Hknown)).
    fold shown. destruct shown as [| p l]; [reflexivity |].
    cbn [snd fst]. unfold bind. cbn [fst snd ret].
    rewrite !app_nil_r, <- app_assoc. reflexivity.
  - intros Hbad.
    pose proof (print_updated_loop_dies s queue f false Hbad) as Hd.
    unfold bind. rewrite Hd. reflexivity.
Qed.

Lemma changed_msg_spec (queue : list diff_filepair) :
  changed_msg letters queue use_add_msg
  = if existsb (fun p => Byte.eqb (status p) (DIFF_STATUS_DELETED letters))
               queue
    then use_add_rm_msg else use_add_msg.
Proof.
  induction queue as [| p rest IH]; [reflexivity |].
  cbn [changed_msg existsb].
  destruct (Byte.eqb (status p) (DIFF_STATUS_DELETED letters));
    [reflexivity | exact IH].
Qed.

Lemma print_changed_loop_returns (s : wt_status) :
  forall queue : list diff_filepair,
    Forall (fun p => handled_status letters (status p) = true) queue ->
    print_changed_loop wt_status_use_color wt_status_colors letters s queue
    = (flat_map (fun p => fst (filepair s WT_STATUS_CHANGED p)) queue,
       Some tt).
Proof.
  induction queue as [| p rest IH]; intros Hknown; [reflexivity |].
  inversion Hknown as [| ? ? Hp Hrest]; subst.
  cbn [print_changed_loop flat_map].
  destruct (wt_status_print_filepair_cases s WT_STATUS_CHANGED p)
    as [(_ & text & Heq & _) | (Hh & _)]; [| congruence].
  unfold bind. rewrite Heq, (IH Hrest). reflexivity.
Qed.

Lemma print_changed_loop_dies (s : wt_status) :
  forall queue : list diff_filepair,
    Exists (fun p => handled_status letters (status p) = false) queue ->
    snd (print_changed_loop wt_status_use_color wt_status_colors letters
           s queue) = None.
Proof.
  induction queue as [| p rest IH]; intros Hbad; [inversion Hbad |].
  cbn [print_changed_loop].
  destruct (wt_status_print_filepair_cases s WT_STATUS_CHANGED p)
    as [(Hh & text & Heq & _) | (Hh & Heq)].
  - unfold bind. rewrite Heq. cbn [fst snd]. apply IH.
    inversion Hbad as [? ? Hp | ? ? Hrest]; subst;
      [congruence | exact Hrest].
  - unfold bind. rewrite Heq. reflexivity.
Qed.

(** X17: [wt_status_print_changed_cb] prints nothing and leaves the flags
    alone for an empty queue.  For a non-empty queue whose status letters
    the [switch] handles, it sets [workdir_dirty] to 1 and prints the
    "Changed but not updated" header block, one line for every queued pair
    (unmerged ones included) in queue order, and the trailer; the hint in
    the header names "git add/rm" exactly when some queued pair is a
    deletion, "git add" otherwise.  It dies when some pair has an
    unhandled letter. *)
Theorem wt_status_print_changed_cb_shape
        (queue : list diff_filepair) (s : wt_status) (f : wt_status_flags) :
  let run := wt_status_print_changed_cb wt_status_use_color
               wt_status_colors letters queue s f in
  let msg :=
    if existsb (fun p => Byte.eqb (status p) (DIFF_STATUS_DELETED letters))
               queue
    then use_add_rm_msg else use_add_msg in
  (queue = [] -> run = ([], Some f)) /\
  (queue <> [] ->
   Forall (fun p => handled_status letters (status p) = true) queue ->
   run = (fst (wt_status_print_header wt_status_use_color wt_status_colors
                 (list_byte_of_string "Changed but not updated") msg)
          ++ flat_map (fun p => fst (filepair s WT_STATUS_CHANGED p)) queue
          ++ fst trailer,
          Some (with_workdir_dirty f))) /\
  (Exists (fun p => handled_status letters (status p) = false) queue ->
   snd run = None).
Proof.
  intros run msg. subst run msg. unfold wt_status_print_changed_cb.
  rewrite changed_msg_spec. split; [| split].
  - intros ->. reflexivity.
  - intros Hne Hknown.
    destruct queue as [| p rest]; [contradiction |].
    assert (Hnz : (Z.of_nat (length (p :: rest)) =? 0) = false)
      by (apply Z.eqb_neq; simpl; lia).
    rewrite Hnz. cbn [negb].
    rewrite (print_changed_loop_returns s _ Hknown).
    unfold bind. cbn [fst snd ret wt_status_print_header
                      wt_status_print_trailer say app].
    rewrite ?app_nil_r. unfold with_workdir_dirty.
    rewrite <- ?app_assoc. reflexivity.
  - intros Hbad.
    pose proof (print_changed_loop_dies s queue Hbad) as Hd.
    destruct (negb (Z.of_nat (length queue) =? 0)).
    + unfold bind at 1. cbn [fst snd ret wt_status_print_header say bind].
      unfold bind at 1. rewrite Hd. reflexivity.
    + unfold bind at 1. cbn [fst snd ret].
      unfold bind at 1. rewrite Hd. reflexivity.
Qed.

End PrintingFacts.

Lemma wt_status_print_updated_cb_shape_witness :
  let s := {| prefix := Some (list_byte_of_string "src/");
              untracked := 0; workdir_untracked := 0 |} in
  let f := {| reference := Some (list_byte_of_string "HEAD");
              commitable := 0; workdir_dirty := 0 |} in
  let pair name st :=
    {| one := mk_diff_filespec (list_byte_of_string name);
       two := mk_diff_filespec (list_byte_of_string name);
       status := st |} in
  let queue := [pair "src/a.c"%string x4d; pair "b.c"%string x55;
                pair "src/d.c"%string x41] in
  Forall (fun p => handled_status git_status_letters (status p) = true)
         (filter not_unmerged queue) /\
  snd (wt_status_print_updated_cb 0 wt_status_colors_init
         git_status_letters queue s f)
  = Some (with_commitable f).
Proof.
  intros s f pair queue.
  assert (Hk : Forall (fun p => handled_status git_status_letters (status p)
                                = true) (filter not_unmerged queue))
    by (repeat constructor).
  split; [exact Hk |].
  destruct (wt_status_print_updated_cb_shape 0 wt_status_colors_init
              git_status_letters queue s f) as [H _].
  rewrite (H Hk). reflexivity.
Defined.

Lemma wt_status_print_changed_cb_shape_witness :
  let s := {| prefix := None; untracked := 0; workdir_untracked := 0 |} in
  let f := {| reference := None; commitable := 0; workdir_dirty := 0 |} in
  let pair name st :=
    {| one := mk_diff_filespec (list_byte_of_string name);
       two := mk_diff_filespec (list_byte_of_string name);
       status := st |} in
  let queue := [pair "a.c"%string x4d; pair "gone.c"%string x44] in
  queue <> [] /\
  Forall (fun p => handled_status git_status_letters (status p) = true)
         queue /\
  snd (wt_status_print_changed_cb 0 wt_status_colors_init
         git_status_letters queue s f)
  = Some (with_workdir_dirty f).
Proof.
  intros s f pair queue.
  assert (Hne : queue <> []) by discriminate.
  assert (Hk : Forall (fun p => handled_status git_status_letters (status p)
                                = true) queue)
    by (repeat constructor).
  split; [exact Hne |]. split; [exact Hk |].
  destruct (wt_status_print_changed_cb_shape 0 wt_status_colors_init
              git_status_letters queue s f) as (_ & H & _).
  rewrite (H Hne Hk). reflexivity.
Defined.

Example print_updated_cb_skips_unmerged :
  fst (wt_status_print_updated_cb 0 wt_status_colors_init git_status_letters
         [ {| one := mk_diff_filespec (list_byte_of_string "x");
              two := mk_diff_filespec (list_byte_of_string "x");
              status := x55 |} ]
         {| prefix := None; untracked := 0; workdir_untracked := 0 |}
         {| reference := None; commitable := 0; workdir_dirty := 0 |})
  = [].
Proof. vm_compute. reflexivity. Qed.

(** ** Entry size against the flags that were written *)

(** X18: for an entry whose flags come from [create_ce_flags len stage],
    the size [ce_size] computes from the flags is the size
    [cache_entry_size len] the name needs as long as [len <= 0xFFF]; for a
    longer name it falls short of the header plus the name. *)
Theorem ce_size_on_disk_create
  (host : byte_order) (len stage mode : Z) (path : list byte)
  (Hlen : 0 <= len) (Hstage : 0 <= stage <= 3) :
  let ce := blank_entry mode (create_ce_flags host len stage) path in
  (len <= 0xFFF -> ce_size_on_disk host ce = cache_entry_size len) /\
  (0xFFF < len -> ce_size_on_disk host ce < offsetof_name + len + 1).
Proof.
  intros ce. subst ce. unfold ce_size_on_disk.
  rewrite ce_namelen_create by lia. split; intros H.
  - rewrite Z.mod_small by lia. reflexivity.
  - unfold cache_entry_size. rewrite land_lnot_7.
    change offsetof_name with 62.
    pose proof (Z.mod_pos_bound len 4096 ltac:(lia)).
    pose proof (Z.div_mod len 4096 ltac:(lia)).
    assert (1 <= len / 4096) by (apply Z.div_le_lower_bound; lia).
    pose proof (Z.div_mod (62 + len mod 4096 + 8) 8 ltac:(lia)).
    pose proof (Z.mod_pos_bound (62 + len mod 4096 + 8) 8 ltac:(lia)).
    lia.
Qed.

Lemma ce_size_on_disk_create_witness :
  ce_size_on_disk BigEndian
    (blank_entry 0 (create_ce_flags BigEndian 6 0) (list_byte_of_string "README"))
  = 72.
Proof.
  destruct (ce_size_on_disk_create BigEndian 6 0 0
              (list_byte_of_string "README")) as [H _]; [lia | lia |].
  rewrite H by lia. reflexivity.
Defined.

(** X19: when the first byte of the prefix differs from the first byte of
    the input path, nothing is stripped: [quote_path] gives one "../" for
    every '/' of the prefix, followed by the whole path with its '\n' and
    '\r' bytes escaped. *)
Theorem quote_path_unrelated (in_ p : list byte) (out : strbuf)
  (Hne : in_ <> [])
  (Hdiff : char_at p 0 <> char_at in_ 0) :
  quote_path in_ (Z.of_nat (length in_)) out (Some p)
  = concat (repeat str_updir (count_slashes p))
    ++ flat_map escape_byte in_.
Proof.
  unfold quote_path.
  destruct (Z.ltb_spec (Z.of_nat (length in_)) 0); [lia |].
  rewrite strip_common_dirs_step.
  assert (Hg : common_dir_guard p in_ (Z.of_nat (length in_)) 0 = false).
  { unfold common_dir_guard.
    destruct (byte_eqb_spec (char_at p 0) (char_at in_ 0));
      [contradiction | apply andb_false_r]. }
  rewrite Hg, add_updirs_spec, quote_bytes_spec by lia.
  rewrite Nat2Z.id, firstn_all. cbn [app].
  pose proof (quote_path_closing (count_slashes p) in_) as [Hc _].
  cbv zeta in Hc. etransitivity; [exact Hc |].
  destruct in_ as [| c l]; [contradiction |].
  cbn [length Nat.eqb]. rewrite andb_false_r. reflexivity.
Qed.

Lemma quote_path_unrelated_witness :
  quote_path (list_byte_of_string "x/y") 3 []
             (Some (list_byte_of_string "a/b/"))
  = list_byte_of_string "../../x/y".
Proof.
  assert (Hne : list_byte_of_string "x/y" <> []) by discriminate.
  assert (Hd : char_at (list_byte_of_string "a/b/") 0
               <> char_at (list_byte_of_string "x/y") 0) by discriminate.
  exact (eq_trans
           (quote_path_unrelated (list_byte_of_string "x/y")
              (list_byte_of_string "a/b/") [] Hne Hd)
           eq_refl).
Defined.
